(** * Radix hardware-wallet APDU codec, Tokens substate and transaction pipeline

    A shallow embedding of
    - the APDU builders ([RadixAPDU]: HD-path serialisation, frame builders),
    - the Tokens substate parser ([Tokens.fromBufferReader]),
    - the transaction pipeline of [Radix.create]
      ([__makeTransactionFromIntent]),
    together with the properties established about them. *)

From Stdlib Require Import String Ascii ZArith List Bool Lia Arith.
Import ListNotations.
Local Open Scope Z_scope.

(** ** JavaScript exceptions and the result of code that may throw *)

Inductive JsError : Type :=
| RangeError                 (* ERR_OUT_OF_RANGE raised by Buffer.writeUInt* *)
| Error (message : string).  (* new Error(message) *)

Inductive result (A : Type) : Type :=
| Ok (a : A)
| Throw (e : JsError).
Arguments Ok {A} a.
Arguments Throw {A} e.

Definition bind {A B : Type} (r : result A) (k : A -> result B) : result B :=
  match r with
  | Ok a => k a
  | Throw e => Throw e
  end.

Notation "x <- r ;; k" := (bind r (fun x => k))
  (at level 61, r at next level, right associativity).

(** ** Node's Buffer, as far as the sources use it *)

Module Buffer.

(** A buffer is its sequence of octets; each element is meant to lie in
    [0, 255]. *)
Definition t : Type := list Z.

Definition isByte (b : Z) : Prop := 0 <= b <= 255.

(** [Buffer.alloc(n)]: n zero octets. *)
Definition alloc (n : nat) : t := repeat 0 n.

(** [Buffer.concat(list)]. *)
Definition concat (bs : list t) : t := List.concat bs.

(** Overwrite [length bytes] octets of [buf] starting at [offset]. *)
Definition blit (buf : t) (offset : nat) (bytes : t) : t :=
  firstn offset buf ++ bytes ++ skipn (offset + length bytes) buf.

(** Big-endian octets of [v], [n] of them. *)
Fixpoint be_bytes (n : nat) (v : Z) : t :=
  match n with
  | O => []
  | S n' => Z.land (Z.shiftr v (8 * Z.of_nat n')) 255 :: be_bytes n' v
  end.

(** [buf.writeUIntBE]-family: the value must fit the width and the
    write must stay inside the buffer, otherwise a RangeError is
    thrown. *)
Definition writeUIntBE (width : nat) (buf : t) (value : Z) (offset : nat)
  : result t :=
  if (0 <=? value) && (value <? 2 ^ (8 * Z.of_nat width)) then
    if (offset + width <=? length buf)%nat then
      Ok (blit buf offset (be_bytes width value))
    else Throw RangeError
  else Throw RangeError.

Definition writeUInt8 := writeUIntBE 1.
Definition writeUInt16BE := writeUIntBE 2.
Definition writeUInt32BE := writeUIntBE 4.

(** A JavaScript string is a sequence of UTF-16 code units; [s.length]
    counts code units. *)
Definition JsString : Type := list Z.

Definition isHighSurrogate (c : Z) : bool := (0xD800 <=? c) && (c <=? 0xDBFF).
Definition isLowSurrogate (c : Z) : bool := (0xDC00 <=? c) && (c <=? 0xDFFF).

Definition replacement : t := [0xEF; 0xBF; 0xBD].

Definition utf8_2 (c : Z) : t :=
  [Z.lor 0xC0 (Z.shiftr c 6); Z.lor 0x80 (Z.land c 0x3F)].
Definition utf8_3 (c : Z) : t :=
  [Z.lor 0xE0 (Z.shiftr c 12);
   Z.lor 0x80 (Z.land (Z.shiftr c 6) 0x3F);
   Z.lor 0x80 (Z.land c 0x3F)].
Definition utf8_4 (c : Z) : t :=
  [Z.lor 0xF0 (Z.shiftr c 18);
   Z.lor 0x80 (Z.land (Z.shiftr c 12) 0x3F);
   Z.lor 0x80 (Z.land (Z.shiftr c 6) 0x3F);
   Z.lor 0x80 (Z.land c 0x3F)].

(** [Buffer.from(s, 'utf8')]: surrogate pairs become one 4-octet
    sequence, a lone surrogate becomes U+FFFD. *)
Fixpoint from_utf8 (s : JsString) : t :=
  match s with
  | [] => []
  | c :: rest =>
      if c <? 0x80 then c :: from_utf8 rest
      else if c <? 0x800 then utf8_2 c ++ from_utf8 rest
      else if isHighSurrogate c then
        match rest with
        | d :: rest' =>
            if isLowSurrogate d then
              utf8_4 (0x10000 + (c - 0xD800) * 0x400 + (d - 0xDC00))
                ++ from_utf8 rest'
            else replacement ++ from_utf8 rest
        | [] => replacement
        end
      else if isLowSurrogate c then replacement ++ from_utf8 rest
      else utf8_3 c ++ from_utf8 rest
  end.

(** Code units of a string literal that only has ASCII characters. *)
Fixpoint of_string (s : string) : JsString :=
  match s with
  | EmptyString => []
  | String a s' => Z.of_nat (Ascii.nat_of_ascii a) :: of_string s'
  end.

End Buffer.

(** ** HD paths (types of @radixdlt/crypto used by the builders) *)

Module HDPath.

(** Modelled from the spec: the coin type of a Radix path is 536
    ([RADIX_COIN_TYPE] is imported from @radixdlt/crypto). *)
Definition RADIX_COIN_TYPE : Z := 536.

Definition hardener : Z := 0x80000000.

(** [BIP32PathComponentT]: [index] is the 32-bit word of the component,
    the high bit already set for a hardened one. *)
Record BIP32PathComponentT : Type := {
  index : Z;
  isHardened : bool
}.

(** Modelled from the spec: [value()] of a path component, missing from
    the sources, is the component's number without the hardening bit
    ("a 32-bit unsigned integer with a high bit denoting hardening"). *)
Definition value (c : BIP32PathComponentT) : Z :=
  if isHardened c then index c - hardener else index c.

(** A component built from its number and its hardening flag. *)
Definition component (n : Z) (hardened : bool) : BIP32PathComponentT :=
  {| index := if hardened then n + hardener else n; isHardened := hardened |}.

(** Well-formed component: a 31-bit number, the high bit of [index]
    tells the hardening. *)
Definition wf (c : BIP32PathComponentT) : Prop :=
  0 <= value c < hardener.

Record HDPathRadixT : Type := {
  pathComponents : list BIP32PathComponentT;
  coinType : BIP32PathComponentT
}.

(** m/44'/536'/account'/change/addressIndex *)
Definition radixPath (account change addressIndex : Z) : HDPathRadixT :=
  {| pathComponents :=
       [component 44 true; component RADIX_COIN_TYPE true;
        component account true; component change false;
        component addressIndex false];
     coinType := component RADIX_COIN_TYPE true |}.

End HDPath.

(** ** The APDU builders (RadixAPDU) *)

Module APDU.
Import HDPath.

(** Modelled from the spec: the instruction codes of [LedgerInstruction],
    declared in ./_types. *)
Inductive LedgerInstruction : Type :=
| GET_VERSION | GET_APP_NAME | GET_PUBLIC_KEY
| DO_SIGN_HASH | DO_KEY_EXCHANGE | DO_SIGN_TX.

Definition insCode (i : LedgerInstruction) : Z :=
  match i with
  | GET_VERSION => 0x00
  | GET_APP_NAME => 0x01
  | GET_PUBLIC_KEY => 0x08
  | DO_SIGN_HASH => 0x02
  | DO_KEY_EXCHANGE => 0x04
  | DO_SIGN_TX => 0x05
  end.

(** Modelled from the spec: [radixCLA] and [LedgerResponseCodes.SW_OK],
    declared in ./_types. *)
Definition radixCLA : Z := 0xAA.
Definition SW_OK : Z := 0x9000.

(** [Omit<PartialAPDUT, 'cla'>]: optional fields are options. *)
Record PartialAPDUT : Type := {
  in_ins : LedgerInstruction;
  in_p1 : option Z;
  in_p2 : option Z;
  in_data : option Buffer.t;
  in_requiredResponseStatusCodeFromDevice : option (list Z)
}.

Record RadixAPDUT : Type := {
  cla : Z;
  ins : LedgerInstruction;
  p1 : Z;
  p2 : Z;
  data : option Buffer.t;
  requiredResponseStatusCodeFromDevice : list Z
}.

(** [x ?? d] *)
Definition nullish {A : Type} (x : option A) (d : A) : A :=
  match x with Some v => v | None => d end.

Definition hdPathComponentsToBuffer_forEach
  := fix forEach (components : list BIP32PathComponentT) (i : nat)
         (data : Buffer.t) {struct components} : result Buffer.t :=
       match components with
       | [] => Ok data
       | component :: rest =>
           data' <- Buffer.writeUInt32BE data (index component) (i * 4) ;;
           forEach rest (S i) data'
       end.

Definition hdPathComponentsToBuffer (hdPath : HDPathRadixT) : result Buffer.t :=
  if negb (value (coinType hdPath) =? RADIX_COIN_TYPE)
     || negb (isHardened (coinType hdPath))
  then Throw (Error "Expected coinType to be 536'")
  else
    let bytesPerComponent := 4%nat in
    let data :=
      Buffer.alloc (bytesPerComponent * length (pathComponents hdPath)) in
    hdPathComponentsToBuffer_forEach (pathComponents hdPath) 0 data.

Definition hdPathToBuffer (hdPath : HDPathRadixT) : result Buffer.t :=
  bipPathsData <- hdPathComponentsToBuffer hdPath ;;
  let bipPathsLength := length (pathComponents hdPath) in
  bipPathsLengthAsSingleByte <-
    Buffer.writeUInt8 (Buffer.alloc 1) (Z.of_nat bipPathsLength) 0 ;;
  Ok (Buffer.concat [bipPathsLengthAsSingleByte; bipPathsData]).

Definition makeAPDU (input : PartialAPDUT) : RadixAPDUT :=
  {| cla := radixCLA;
     ins := in_ins input;
     p1 := nullish (in_p1 input) 0;
     p2 := nullish (in_p2 input) 0;
     data := in_data input;
     requiredResponseStatusCodeFromDevice :=
       nullish (in_requiredResponseStatusCodeFromDevice input) [SW_OK] |}.

Definition getVersion : RadixAPDUT :=
  makeAPDU {| in_ins := GET_VERSION; in_p1 := None; in_p2 := None;
              in_data := None;
              in_requiredResponseStatusCodeFromDevice := None |}.

Record APDUGetPublicKeyInput : Type := {
  gpk_path : HDPathRadixT;
  gpk_displayAddress : bool
}.

(** [PublicKeyT]: only [asData] is used. *)
Record PublicKeyT : Type := {
  asData : bool (* compressed *) -> Buffer.t
}.

Record APDUDoKeyExchangeInput : Type := {
  dke_path : HDPathRadixT;
  dke_publicKeyOfOtherParty : PublicKeyT;
  dke_displayBIPAndPubKeyOtherParty : bool
}.

Definition parameterValueForDisplayAddressOnLedger (displayAddress : bool) : Z :=
  if displayAddress then 0x01 else 0x00.

Definition parameterValueForDisplayECDHInputOnLedger
  (input : APDUDoKeyExchangeInput) : Z :=
  if dke_displayBIPAndPubKeyOtherParty input then 0x01 else 0x00.

Definition getPublicKey (input : APDUGetPublicKeyInput) : result RadixAPDUT :=
  let p1 := parameterValueForDisplayAddressOnLedger (gpk_displayAddress input) in
  data <- hdPathToBuffer (gpk_path input) ;;
  Ok (makeAPDU {| in_ins := GET_PUBLIC_KEY; in_p1 := Some p1; in_p2 := None;
                  in_data := Some data;
                  in_requiredResponseStatusCodeFromDevice := None |}).

Definition doKeyExchange (input : APDUDoKeyExchangeInput) : result RadixAPDUT :=
  let p1 := parameterValueForDisplayECDHInputOnLedger input in
  let publicKeyUncompressedData :=
    asData (dke_publicKeyOfOtherParty input) false in
  publicKeyLengthBuf <-
    Buffer.writeUInt8 (Buffer.alloc 1)
      (Z.of_nat (length publicKeyUncompressedData)) 0 ;;
  let publicKeyData :=
    Buffer.concat [publicKeyLengthBuf; publicKeyUncompressedData] in
  pathData <- hdPathToBuffer (dke_path input) ;;
  let data := Buffer.concat [pathData; publicKeyData] in
  Ok (makeAPDU {| in_ins := DO_KEY_EXCHANGE; in_p1 := Some p1; in_p2 := None;
                  in_data := Some data;
                  in_requiredResponseStatusCodeFromDevice := None |}).

Record APDUDoSignHashInput : Type := {
  dsh_path : HDPathRadixT;
  dsh_displayAddress : bool;
  dsh_hashToSign : Buffer.t
}.

Definition doSignHash (input : APDUDoSignHashInput) : result RadixAPDUT :=
  let p1 := parameterValueForDisplayAddressOnLedger (dsh_displayAddress input) in
  pathData <- hdPathToBuffer (dsh_path input) ;;
  let hashedMessageByteCount := length (dsh_hashToSign input) in
  hashLenBuf <-
    Buffer.writeUInt8 (Buffer.alloc 1) (Z.of_nat hashedMessageByteCount) 0 ;;
  let hashData := Buffer.concat [hashLenBuf; dsh_hashToSign input] in
  let data := Buffer.concat [pathData; hashData] in
  Ok (makeAPDU {| in_ins := DO_SIGN_HASH; in_p1 := Some p1; in_p2 := None;
                  in_data := Some data;
                  in_requiredResponseStatusCodeFromDevice := None |}).

Record APDUDoSignTxInitialPackage : Type := {
  stx_path : HDPathRadixT;
  stx_txByteCount : Z;
  stx_nonNativeTokenRriHRP : option Buffer.JsString;
  stx_numberOfInstructions : Z
}.

Record APDUDoSignTxSingleInstructionPackage : Type := {
  instructionBytes : Buffer.t;
  isLastInstruction : bool
}.

(** [enum SignTxAPDUType] *)
Definition SINGLE_RADIX_ENGINE_INSTRUCTION_APDU : Z := 73.
Definition FIRST_METADATA_APDU : Z := 77.

Definition signTxInitialSetupPackage (input : APDUDoSignTxInitialPackage)
  : result RadixAPDUT :=
  let p1 := FIRST_METADATA_APDU in
  pathData <- hdPathToBuffer (stx_path input) ;;
  sizeOfTXAsData <-
    Buffer.writeUInt32BE (Buffer.alloc 4) (stx_txByteCount input) 0 ;;
  instructionCountAsData <-
    Buffer.writeUInt16BE (Buffer.alloc 2) (stx_numberOfInstructions input) 0 ;;
  let hrpLen :=
    match stx_nonNativeTokenRriHRP input with
    | None => 0
    | Some hrp => Z.of_nat (length hrp)
    end in
  if 255 <? hrpLen
  then Throw (Error "Non native token HRP must not longer than 255.")
  else
    nonNativeTokenHrpLengthAsData <-
      Buffer.writeUInt8 (Buffer.alloc 1) hrpLen 0 ;;
    let nonNativeTokenHrpData :=
      match stx_nonNativeTokenRriHRP input with
      | None => Buffer.alloc 0
      | Some hrp => Buffer.from_utf8 hrp
      end in
    let hrpData :=
      Buffer.concat [nonNativeTokenHrpLengthAsData; nonNativeTokenHrpData] in
    let data :=
      Buffer.concat [pathData; sizeOfTXAsData; instructionCountAsData; hrpData] in
    Ok (makeAPDU {| in_ins := DO_SIGN_TX; in_p1 := Some p1; in_p2 := None;
                    in_data := Some data;
                    in_requiredResponseStatusCodeFromDevice := None |}).

Definition signTxStream (input : APDUDoSignTxSingleInstructionPackage)
  : RadixAPDUT :=
  let p1 := SINGLE_RADIX_ENGINE_INSTRUCTION_APDU in
  let p2 := if isLastInstruction input then 0x01 else 0x00 in
  makeAPDU {| in_ins := DO_SIGN_TX; in_p1 := Some p1; in_p2 := Some p2;
              in_data := Some (instructionBytes input);
              in_requiredResponseStatusCodeFromDevice := None |}.

Definition getAppName : RadixAPDUT :=
  makeAPDU {| in_ins := GET_APP_NAME; in_p1 := None; in_p2 := None;
              in_data := None;
              in_requiredResponseStatusCodeFromDevice := None |}.

(** The exported [RadixAPDU] object: one constructor per builder. *)
Inductive BuilderCall : Type :=
| CallGetAppName
| CallGetVersion
| CallGetPublicKey (input : APDUGetPublicKeyInput)
| CallDoKeyExchange (input : APDUDoKeyExchangeInput)
| CallDoSignHash (input : APDUDoSignHashInput)
| CallSignTxInitialSetup (input : APDUDoSignTxInitialPackage)
| CallSignTxStream (input : APDUDoSignTxSingleInstructionPackage).

Definition RadixAPDU (c : BuilderCall) : result RadixAPDUT :=
  match c with
  | CallGetAppName => Ok getAppName
  | CallGetVersion => Ok getVersion
  | CallGetPublicKey input => getPublicKey input
  | CallDoKeyExchange input => doKeyExchange input
  | CallDoSignHash input => doSignHash input
  | CallSignTxInitialSetup input => signTxInitialSetupPackage input
  | CallSignTxStream input => Ok (signTxStream input)
  end.

(** Number of octets a frame carries ([data] may be undefined). *)
Definition dataLength (f : RadixAPDUT) : nat :=
  match data f with
  | Some d => length d
  | None => 0%nat
  end.

End APDU.

(** ** The Tokens substate (tokens.ts) *)

Module Tokens.

(** neverthrow's [Result<T, Error>] is rendered with [result]: [Ok v] is
    [ok(v)] and [Throw e] is [err(e)]. *)
Definition result_map {A B : Type} (f : A -> B) (r : result A) : result B :=
  match r with
  | Ok a => Ok (f a)
  | Throw e => Throw e
  end.

(** [combine(list)]: all the values, or the first error of the list. *)
Fixpoint combine {A : Type} (l : list (result A)) : result (list A) :=
  match l with
  | [] => Ok []
  | Ok a :: rest => result_map (cons a) (combine rest)
  | Throw e :: _ => Throw e
  end.

(** [b.toString('hex')]: two hexadecimal digits per octet, given by
    their values. *)
Definition toString_hex (b : Buffer.t) : list Z :=
  flat_map (fun x => [x / 16; x mod 16]) b.

(** [Buffer.from(array)]: each number is taken modulo 256. *)
Definition from_array (a : list Z) : Buffer.t :=
  map (fun x => Z.land x 255) a.

(** [UInt256] (@radixdlt/uint256): an unsigned 256-bit integer;
    [new UInt256(digits, radix)] reads a numeral, [toByteArray()] gives
    its 32 octets, least significant first. *)
Definition UInt256 : Type := Z.

Definition UInt256_new (digits : list Z) (radix : Z) : UInt256 :=
  fold_left (fun acc d => acc * radix + d) digits 0 mod 2 ^ 256.

Definition toByteArray (u : UInt256) : list Z :=
  map (fun i => Z.land (Z.shiftr u (8 * Z.of_nat i)) 255) (seq 0 32).

Definition uint256ByteCount : nat := 32.

Definition amountToBuffer (amount : UInt256) : Buffer.t :=
  rev (from_array (toByteArray amount)).

(** [BufferReaderT] (@radixdlt/util) is not part of the sources at hand.
    A reader is a cursor over a buffer: its state is the octets not read
    yet, and every call that takes a reader returns the reader's state
    after the call. [readNextBuffer(n)] hands out the next [n] octets and
    advances past them when that many remain. What it returns, and where
    it leaves the cursor, when fewer remain is not assumed: it is the
    parameter [readFailure]. *)
Definition BufferReaderT : Type := Buffer.t.

Section WithReader.

Variable readFailure : nat -> BufferReaderT -> result Buffer.t * BufferReaderT.

Definition readNextBuffer (byteCount : nat) (r : BufferReaderT)
  : result Buffer.t * BufferReaderT :=
  if (byteCount <=? length r)%nat
  then (Ok (firstn byteCount r), skipn byteCount r)
  else readFailure byteCount r.

Definition uint256FromReadBuffer (bufferReader : BufferReaderT)
  : result UInt256 * BufferReaderT :=
  let (b, r) := readNextBuffer uint256ByteCount bufferReader in
  (result_map (fun b => UInt256_new (toString_hex b) 16) b, r).

Section WithREAddress.

(** [REAddress] (./reAddress) and [SubStateType.TOKENS] (./_types) are
    not part of the sources at hand: they are parameters. *)
Variable REAddressT : Type.
Variable REAddress_toBuffer : REAddressT -> Buffer.t.
Variable REAddress_fromBufferReader :
  BufferReaderT -> result REAddressT * BufferReaderT.
Variable TOKENS : Z.

(** The elements of the list given to [combine]. *)
Inductive Parsed : Type :=
| PREAddress (a : REAddressT)
| PUInt256 (u : UInt256).

Record TokensT : Type := {
  rri : REAddressT;
  owner : REAddressT;
  amount : UInt256;
  substateType : Z;
  toBuffer : Buffer.t
}.

(** The three reads are evaluated, in this order, before [combine]
    looks at any of them. *)
Definition fromBufferReader (bufferReader : BufferReaderT)
  : result TokensT * BufferReaderT :=
  let (res0, r1) := REAddress_fromBufferReader bufferReader in
  let (res1, r2) := REAddress_fromBufferReader r1 in
  let (res2, r3) := uint256FromReadBuffer r2 in
  (resList <- combine [result_map PREAddress res0;
                       result_map PREAddress res1;
                       result_map PUInt256 res2] ;;
   match resList with
   | [PREAddress rri; PREAddress owner; PUInt256 amount] =>
       let buffer :=
         Buffer.concat [from_array [TOKENS];
                        REAddress_toBuffer rri;
                        REAddress_toBuffer owner;
                        amountToBuffer amount] in
       Ok {| rri := rri; owner := owner; amount := amount;
             substateType := TOKENS; toBuffer := buffer |}
   | _ => Throw (Error "unreachable: the casts of resList")
   end,
   r3).

End WithREAddress.

End WithReader.

Arguments rri {REAddressT} _.
Arguments owner {REAddressT} _.
Arguments amount {REAddressT} _.
Arguments substateType {REAddressT} _.
Arguments toBuffer {REAddressT} _.

(** A reader and a one-octet address that report an error and stay in
    place when the octets run out, to run the parser on concrete
    input. *)
Definition sampleReadFailure (byteCount : nat) (r : BufferReaderT)
  : result Buffer.t * BufferReaderT :=
  (Throw (Error "Out of buffer's boundary"), r).

Definition byteAddress_fromBufferReader (r : BufferReaderT)
  : result Z * BufferReaderT :=
  match r with
  | x :: r' => (Ok x, r')
  | [] => (Throw (Error "Out of buffer's boundary"), [])
  end.

(** Two one-octet addresses and the amount 1000. *)
Definition sampleTokens : Buffer.t :=
  [0x01; 0x04] ++ repeat 0 30 ++ [0x03; 0xE8].

End Tokens.

(** ** The transaction pipeline (radix.ts, [__makeTransactionFromIntent]) *)

Module TransactionStatus.
Inductive t : Type := PENDING | CONFIRMED | FAILED.

Definition eqb (a b : t) : bool :=
  match a, b with
  | PENDING, PENDING | CONFIRMED, CONFIRMED | FAILED, FAILED => true
  | _, _ => false
  end.
End TransactionStatus.

Module TransactionTrackingEventType.
Inductive t : Type :=
| INITIATED
| BUILT_FROM_INTENT
| ASKED_FOR_CONFIRMATION
| CONFIRMED
| SIGNED
| FINALIZED
| SUBMITTED
| UPDATE_OF_STATUS_OF_PENDING_TX
| COMPLETED.
End TransactionTrackingEventType.

Module Pipeline.
Import TransactionTrackingEventType.

(** *** Values passed between the stages *)

Definition AccountAddressT : Type := string.
Definition TransactionIdentifierT : Type := string.
Definition PublicKey : Type := string.
Definition Signature : Type := string.

Record ResourceIdentifier : Type := { name : string }.

Inductive ActionType : Type := TOKEN_TRANSFER | STAKE_TOKENS | UNSTAKE_TOKENS.

Definition ActionType_eqb (a b : ActionType) : bool :=
  match a, b with
  | TOKEN_TRANSFER, TOKEN_TRANSFER
  | STAKE_TOKENS, STAKE_TOKENS
  | UNSTAKE_TOKENS, UNSTAKE_TOKENS => true
  | _, _ => false
  end.

Record TransferTokensAction : Type := { rri : ResourceIdentifier }.

Inductive IntendedAction : Type :=
| IntendedTransferTokens (t : TransferTokensAction)
| IntendedStakeTokens
| IntendedUnstakeTokens.

(** [a.type] *)
Definition type (a : IntendedAction) : ActionType :=
  match a with
  | IntendedTransferTokens _ => TOKEN_TRANSFER
  | IntendedStakeTokens => STAKE_TOKENS
  | IntendedUnstakeTokens => UNSTAKE_TOKENS
  end.

(** [a as TransferTokensAction], on the actions that are transfers. *)
Definition asTransferTokensAction (a : IntendedAction)
  : list TransferTokensAction :=
  match a with
  | IntendedTransferTokens t => [t]
  | _ => []
  end.

Record TransactionIntent : Type := { actions : list IntendedAction }.

Record BuiltTransaction : Type := {
  transaction : string;
  fee : Z
}.

Record SignedTransaction : Type := {
  signed_transaction : string;
  signature : Signature;
  publicKeyOfSigner : PublicKey
}.

Record FinalizedTransaction : Type := {
  finalized_signed : SignedTransaction;
  finalized_txID : TransactionIdentifierT
}.

Record PendingTransaction : Type := { pending_txID : TransactionIdentifierT }.

Record StatusOfTransaction : Type := {
  txID : TransactionIdentifierT;
  status : TransactionStatus.t
}.

Record AccountT : Type := {
  address : AccountAddressT;
  publicKey : PublicKey
}.

(** Modelled from the spec: the domain-tagged errors of ./errors, each
    wrapping the underlying message (section 7). *)
Inductive APIErrorCause : Type :=
| BuildTxFromIntent
| FinalizeTx
| SubmitSignedTx
| TransactionStatusCause.

Inductive ErrorT : Type :=
| APIError (cause : APIErrorCause) (message : string)
| Thrown (e : JsError).

Definition buildTxFromIntentErr (m : string) : ErrorT := APIError BuildTxFromIntent m.
Definition finalizeTxErr (m : string) : ErrorT := APIError FinalizeTx m.
Definition submitSignedTxErr (m : string) : ErrorT := APIError SubmitSignedTx m.
Definition txStatusErr (m : string) : ErrorT := APIError TransactionStatusCause m.

(** The error of the signing step for several non-XRD RRIs. *)
Definition MultipleNonNativeRRIs : ErrorT :=
  Thrown (Error "Error cannot sign transction with multiple non-XRD RRIs. Unsupported by Ledger app.").

Inductive TransactionState : Type :=
| OfIntent (i : TransactionIntent)
| OfBuilt (b : BuiltTransaction)
| OfSigned (s : SignedTransaction)
| OfFinalized (f : FinalizedTransaction)
| OfPending (p : PendingTransaction)
| OfStatus (s : StatusOfTransaction).

(** [TransactionStateUpdate]: a success carries [transactionState], a
    [TransactionStateError] carries [error]. *)
Inductive TransactionStateUpdate : Type :=
| TransactionStateSuccess (eventUpdateType : TransactionTrackingEventType.t)
    (transactionState : TransactionState)
| TransactionStateError (eventUpdateType : TransactionTrackingEventType.t)
    (error : ErrorT).

(** [options.userConfirmation]: ['skip'] or a subject of the caller. *)
Inductive TransactionConfirmationBeforeFinalization : Type :=
| skip
| manual.

Definition shouldConfirmTransactionAutomatically
  (confirmationScheme : TransactionConfirmationBeforeFinalization) : bool :=
  match confirmationScheme with skip => true | manual => false end.

(** *** What the pipeline does to the outside *)

Inductive Output : Type :=
| Track (event : TransactionStateUpdate)        (* trackingSubject.next *)
| CompletionNext (txID : TransactionIdentifierT) (* completionSubject.next *)
| CompletionComplete                             (* completionSubject.complete *)
| CompletionError (e : ErrorT)                   (* completionSubject.error *)
| AskUser (txToConfirm : BuiltTransaction)       (* twoWayConfirmationSubject.next *)
| CallBuildTransaction (intent : TransactionIntent) (a : AccountAddressT)
| CallSign (tx : string) (nonXRDHrp : option string)
| CallFinalizeTransaction (signedTx : SignedTransaction)
| CallSubmitSignedTransaction (finalizedTx : FinalizedTransaction)
| CallTransactionStatus (txID : TransactionIdentifierT).

(** *** What reaches the pipeline from the outside

    Every collaborator answers asynchronously, after the constructor has
    returned: each answer is one input, handled to the end before the
    next one (RxJS delivers synchronously). [transactionIntent$] is the
    single-value observable a [TransactionIntentBuilder] makes: it emits
    one intent per subscription. A node call ([fwdAPICall], with its
    [take(1)]) answers once, with a value or with the message of the
    underlying error, which the pipeline wraps in the error of the call;
    [account.sign] answers once, with a signature or an error.

    - [IntentEmitted]: the intent leaves [withLatestFrom(activeAddress)]
      of [builtTransaction$], paired with the active address.
    - [SignInputs]: the [combineLatest] inside [signUnsignedTx] emits the
      intent (of its own subscription to [transactionIntent$]) and the
      active account.
    - [SignResponse k]: the [k]-th unanswered call of [account.sign]
      answers.
    - An input that nothing awaits changes nothing.

    An invocation of [confirm()] from inside the caller's subscriber,
    before ASKED_FOR_CONFIRMATION is tracked, has the effect of the
    ['skip'] scheme and is not a separate input. *)
Inductive Input : Type :=
| IntentEmitted (intent : TransactionIntent) (activeAddress : AccountAddressT)
| BuildResponse (r : BuiltTransaction + string)
| UserConfirm                                  (* the caller invokes confirm() *)
| SignInputs (transactionIntent : TransactionIntent) (account : AccountT)
| SignResponse (k : nat) (r : Signature + JsError)
| FinalizeResponse (r : FinalizedTransaction + string)
| SubmitResponse (r : PendingTransaction + string)
| Tick                                         (* pollTXStatusTrigger emits *)
| StatusResponse (r : StatusOfTransaction + string).

(** *** The state of the subscriptions *)

(** [builtTransaction$] and the [combineLatest] above the signing step. *)
Record Upstream : Type := {
  intentPending : bool;       (* transactionIntent$ has not emitted yet *)
  buildInFlight : bool;       (* api.buildTransaction has not answered *)
  builtSlot : option BuiltTransaction;  (* latest of builtTransaction$ *)
  confirmSlot : bool;         (* userDidConfirmTransactionSubject emitted *)
  confirmHandedOut : bool     (* the caller holds confirm() *)
}.

(** The source side of [signedTransaction$] ([shareReplay(1)] keeps it
    subscribed whatever its subscribers do). *)
Record Signing : Type := {
  chainAlive : bool;
  signWaiting : nat;          (* signUnsignedTx waits for intent and account *)
  signInFlight : list AccountT  (* account.sign calls not answered *)
}.

(** [finalizedTx$] and the submitting subscription added to [txSubs]. *)
Record Downstream : Type := {
  finalizeAlive : bool;
  finalizeInFlight : nat;
  submitAlive : bool;
  submitInFlight : nat
}.

(** [transactionStatus$] and its three subscribers. *)
Record Polling : Type := {
  tickSeen : bool;
  pendingSlot : option PendingTransaction;
  pollAlive : bool;
  statusInFlight : nat;
  lastStatus : option TransactionStatus.t   (* key of distinctUntilChanged *)
}.

Inductive CompletionState : Type := Open | Failed | Completed.

Record State : Type := {
  upstream : Upstream;
  signing : Signing;
  downstream : Downstream;
  polling : Polling;
  completion : CompletionState
}.

Definition with_upstream (u : Upstream) (s : State) : State :=
  {| upstream := u; signing := signing s; downstream := downstream s;
     polling := polling s; completion := completion s |}.
Definition with_signing (g : Signing) (s : State) : State :=
  {| upstream := upstream s; signing := g; downstream := downstream s;
     polling := polling s; completion := completion s |}.
Definition with_downstream (d : Downstream) (s : State) : State :=
  {| upstream := upstream s; signing := signing s; downstream := d;
     polling := polling s; completion := completion s |}.
Definition with_polling (p : Polling) (s : State) : State :=
  {| upstream := upstream s; signing := signing s; downstream := downstream s;
     polling := p; completion := completion s |}.
Definition with_completion (c : CompletionState) (s : State) : State :=
  {| upstream := upstream s; signing := signing s; downstream := downstream s;
     polling := polling s; completion := c |}.

(** The state when [__makeTransactionFromIntent] returns. *)
Definition initial : State :=
  {| upstream := {| intentPending := true; buildInFlight := false;
                    builtSlot := None; confirmSlot := false;
                    confirmHandedOut := false |};
     signing := {| chainAlive := true; signWaiting := 0; signInFlight := [] |};
     downstream := {| finalizeAlive := true; finalizeInFlight := 0;
                      submitAlive := true; submitInFlight := 0 |};
     polling := {| tickSeen := false; pendingSlot := None; pollAlive := true;
                   statusInFlight := 0; lastStatus := None |};
     completion := Open |}.

(** *** Callbacks: a state change and the outputs it makes, in order *)

Definition Action : Type := State -> State * list Output.

Definition nothing : Action := fun s => (s, []).

Definition andThen (a b : Action) : Action :=
  fun s =>
    let (s1, o1) := a s in
    let (s2, o2) := b s1 in
    (s2, o1 ++ o2).

Notation "a >> b" := (andThen a b) (at level 62, left associativity).

Definition out (o : Output) : Action := fun s => (s, [o]).

Definition modify (f : State -> State) : Action := fun s => (f s, []).

(** [track(event)] *)
Definition track (event : TransactionStateUpdate) : Action := out (Track event).

(** A subject that has errored or completed ignores what it is given. *)
Definition completionSubject_error (e : ErrorT) : Action :=
  fun s =>
    match completion s with
    | Open => (with_completion Failed s, [CompletionError e])
    | _ => (s, [])
    end.

Definition completionSubject_next_complete (txID : TransactionIdentifierT)
  : Action :=
  fun s =>
    match completion s with
    | Open => (with_completion Completed s,
               [CompletionNext txID; CompletionComplete])
    | _ => (s, [])
    end.

Definition trackError (error : ErrorT) (inStep : TransactionTrackingEventType.t)
  : Action :=
  let errorEvent := TransactionStateError inStep error in
  track errorEvent >> completionSubject_error error.

(** [txSubs.unsubscribe()]: the submitting subscription (and with it
    [finalizedTx$]) and the three subscriptions to [transactionStatus$]
    end; the source of [signedTransaction$] stays subscribed. *)
Definition txSubs_unsubscribe : Action :=
  modify (fun s =>
    with_downstream {| finalizeAlive := false; finalizeInFlight := 0;
                       submitAlive := false; submitInFlight := 0 |}
      (with_polling {| tickSeen := tickSeen (polling s);
                       pendingSlot := pendingSlot (polling s);
                       pollAlive := false; statusInFlight := 0;
                       lastStatus := lastStatus (polling s) |} s)).

(** *** signUnsignedTx *)

Definition Set_add (acc : list string) (x : string) : list string :=
  if existsb (String.eqb x) acc then acc else acc ++ [x].

(** [[...new Set(l)]]: the distinct elements, in order of first
    occurrence. *)
Definition newSet (l : list string) : list string := fold_left Set_add l [].

Definition nonXRDHRPsOfRRIsInTx (transactionIntent : TransactionIntent)
  : list string :=
  map (fun t => name (rri t))
    (filter (fun t => negb (String.eqb (name (rri t)) "xrd"))
       (flat_map asTransferTokensAction
          (filter (fun a => ActionType_eqb (type a) TOKEN_TRANSFER)
             (actions transactionIntent)))).

Definition uniquenonXRDHRPsOfRRIsInTx (transactionIntent : TransactionIntent)
  : list string :=
  newSet (nonXRDHRPsOfRRIsInTx transactionIntent).

(** The body of the [mergeMap] of [signUnsignedTx]: an error, or the
    arguments [account.sign] is called with. *)
Definition signUnsignedTx_mergeMap (unsignedTx : BuiltTransaction)
  (transactionIntent : TransactionIntent)
  : ErrorT + (string * option string) :=
  let unique := uniquenonXRDHRPsOfRRIsInTx transactionIntent in
  if (1 <? length unique)%nat then inl MultipleNonNativeRRIs
  else
    let nonXRDHrp :=
      match unique with
      | [hrp] => Some hrp
      | _ => None
      end in
    inr (transaction unsignedTx, nonXRDHrp).

(** *** The stages, from the last to the first *)

(** [pendingTXSubject.next(pendingTx)] reaching the [combineLatest] of
    [transactionStatus$]. *)
Definition pendingTXSubject_next (pendingTx : PendingTransaction) : Action :=
  fun s =>
    let p := polling s in
    if pollAlive p then
      if tickSeen p then
        (with_polling {| tickSeen := true; pendingSlot := Some pendingTx;
                         pollAlive := true;
                         statusInFlight := S (statusInFlight p);
                         lastStatus := lastStatus p |} s,
         [CallTransactionStatus (pending_txID pendingTx)])
      else
        (with_polling {| tickSeen := false; pendingSlot := Some pendingTx;
                         pollAlive := true;
                         statusInFlight := statusInFlight p;
                         lastStatus := lastStatus p |} s, [])
    else (s, []).

(** A value of [finalizedTx$] reaching the submitting subscription. *)
Definition finalizedTx_next (finalizedTx : FinalizedTransaction) : Action :=
  track (TransactionStateSuccess FINALIZED (OfFinalized finalizedTx)) >>
  (fun s =>
     let d := downstream s in
     if submitAlive d then
       (with_downstream {| finalizeAlive := finalizeAlive d;
                           finalizeInFlight := finalizeInFlight d;
                           submitAlive := true;
                           submitInFlight := S (submitInFlight d) |} s,
        [CallSubmitSignedTransaction finalizedTx])
     else (s, [])).

(** [finalizedTx$] ends: its [catchError] reported [e] and returned
    EMPTY. Answers of [finalizeTransaction] still awaited are dropped;
    submissions already started go on. *)
Definition finalizedTx_catchError (e : ErrorT) : Action :=
  trackError e FINALIZED >>
  modify (fun s =>
    let d := downstream s in
    with_downstream {| finalizeAlive := false; finalizeInFlight := 0;
                       submitAlive := submitAlive d;
                       submitInFlight := submitInFlight d |} s).

(** A value of [signedTransaction$] reaching [finalizedTx$]. *)
Definition signedTransaction_next (signedTx : SignedTransaction) : Action :=
  fun s =>
    let d := downstream s in
    if finalizeAlive d then
      (track (TransactionStateSuccess SIGNED (OfSigned signedTx)) >>
       out (CallFinalizeTransaction signedTx) >>
       modify (with_downstream
                 {| finalizeAlive := true;
                    finalizeInFlight := S (finalizeInFlight d);
                    submitAlive := submitAlive d;
                    submitInFlight := submitInFlight d |})) s
    else (s, []).

(** The signing step fails: the [mergeMap] of [signedTransaction$]
    errors, which ends the source side of [signedTransaction$]; no
    [catchError] stands between it and the one of [finalizedTx$]. *)
Definition signedTransaction_error (e : ErrorT) : Action :=
  modify (with_signing {| chainAlive := false; signWaiting := 0;
                          signInFlight := [] |}) >>
  (fun s => if finalizeAlive (downstream s)
            then finalizedTx_catchError e s
            else (s, [])).

(** The [combineLatest] of [signedTransaction$] emits. *)
Definition confirmed_next (unsignedTx : BuiltTransaction) : Action :=
  track (TransactionStateSuccess CONFIRMED (OfBuilt unsignedTx)) >>
  modify (fun s =>
    let g := signing s in
    with_signing {| chainAlive := chainAlive g;
                    signWaiting := S (signWaiting g);
                    signInFlight := signInFlight g |} s).

(** [userDidConfirmTransactionSubject.next(0)] *)
Definition userDidConfirmTransactionSubject_next : Action :=
  fun s =>
    if chainAlive (signing s) then
      let u := upstream s in
      let s' := with_upstream {| intentPending := intentPending u;
                                 buildInFlight := buildInFlight u;
                                 builtSlot := builtSlot u;
                                 confirmSlot := true;
                                 confirmHandedOut := confirmHandedOut u |} s in
      match builtSlot u with
      | Some unsignedTx => confirmed_next unsignedTx s'
      | None => (s', [])
      end
    else (s, []).

(** [askUserToConfirmSubject.next(builtTx)]: its subscriber confirms at
    once under ['skip'], and otherwise hands [txToConfirm] and
    [confirm] to the caller's subject. *)
Definition askUserToConfirmSubject_next
  (userConfirmation : TransactionConfirmationBeforeFinalization)
  (builtTx : BuiltTransaction) : Action :=
  if shouldConfirmTransactionAutomatically userConfirmation then
    userDidConfirmTransactionSubject_next
  else
    out (AskUser builtTx) >>
    modify (fun s =>
      let u := upstream s in
      with_upstream {| intentPending := intentPending u;
                       buildInFlight := buildInFlight u;
                       builtSlot := builtSlot u;
                       confirmSlot := confirmSlot u;
                       confirmHandedOut := true |} s).

(** [builtTransaction$] emits: the two [tap]s, then the [combineLatest]
    of [signedTransaction$] takes the value. *)
Definition builtTransaction_next
  (userConfirmation : TransactionConfirmationBeforeFinalization)
  (builtTx : BuiltTransaction) : Action :=
  track (TransactionStateSuccess BUILT_FROM_INTENT (OfBuilt builtTx)) >>
  askUserToConfirmSubject_next userConfirmation builtTx >>
  track (TransactionStateSuccess ASKED_FOR_CONFIRMATION (OfBuilt builtTx)) >>
  (fun s =>
     if chainAlive (signing s) then
       let u := upstream s in
       let s' := with_upstream {| intentPending := intentPending u;
                                  buildInFlight := buildInFlight u;
                                  builtSlot := Some builtTx;
                                  confirmSlot := confirmSlot u;
                                  confirmHandedOut := confirmHandedOut u |} s in
       if confirmSlot u then confirmed_next builtTx s' else (s', [])
     else (s, [])).

(** A status leaves [distinctUntilChanged] and [share]: the tracking
    subscriber, then the watcher of CONFIRMED, then the watcher of
    FAILED. *)
Definition transactionStatus_next (statusOfTransaction : StatusOfTransaction)
  : Action :=
  track (TransactionStateSuccess UPDATE_OF_STATUS_OF_PENDING_TX
           (OfStatus statusOfTransaction)) >>
  match status statusOfTransaction with
  | TransactionStatus.CONFIRMED =>
      track (TransactionStateSuccess COMPLETED (OfStatus statusOfTransaction)) >>
      completionSubject_next_complete (txID statusOfTransaction) >>
      txSubs_unsubscribe
  | TransactionStatus.FAILED =>
      let errMsg :=
        ("API status of tx with id=" ++ txID statusOfTransaction
           ++ " returned 'FAILED'")%string in
      trackError (Thrown (Error errMsg)) UPDATE_OF_STATUS_OF_PENDING_TX >>
      txSubs_unsubscribe
  | TransactionStatus.PENDING => nothing
  end.

(** *** One input *)

Definition step
  (userConfirmation : TransactionConfirmationBeforeFinalization)
  (i : Input) : Action :=
  fun s =>
    let u := upstream s in
    let g := signing s in
    let d := downstream s in
    let p := polling s in
    match i with
    | IntentEmitted intent activeAddress =>
        if intentPending u then
          (track (TransactionStateSuccess INITIATED (OfIntent intent)) >>
           out (CallBuildTransaction intent activeAddress))
            (with_upstream {| intentPending := false; buildInFlight := true;
                              builtSlot := builtSlot u;
                              confirmSlot := confirmSlot u;
                              confirmHandedOut := confirmHandedOut u |} s)
        else (s, [])
    | BuildResponse r =>
        if buildInFlight u then
          let s' := with_upstream {| intentPending := intentPending u;
                                     buildInFlight := false;
                                     builtSlot := builtSlot u;
                                     confirmSlot := confirmSlot u;
                                     confirmHandedOut := confirmHandedOut u |} s in
          match r with
          | inl builtTx => builtTransaction_next userConfirmation builtTx s'
          | inr m => trackError (buildTxFromIntentErr m) BUILT_FROM_INTENT s'
          end
        else (s, [])
    | UserConfirm =>
        if confirmHandedOut u then userDidConfirmTransactionSubject_next s
        else (s, [])
    | SignInputs transactionIntent account =>
        match builtSlot u, signWaiting g with
        | Some unsignedTx, S n =>
            if chainAlive g then
              match signUnsignedTx_mergeMap unsignedTx transactionIntent with
              | inl e => signedTransaction_error e s
              | inr (tx, nonXRDHrp) =>
                  (with_signing {| chainAlive := true; signWaiting := n;
                                   signInFlight := signInFlight g ++ [account] |} s,
                   [CallSign tx nonXRDHrp])
              end
            else (s, [])
        | _, _ => (s, [])
        end
    | SignResponse k r =>
        match builtSlot u, nth_error (signInFlight g) k with
        | Some unsignedTx, Some account =>
            if chainAlive g then
              match r with
              | inl signature =>
                  signedTransaction_next
                    {| signed_transaction := transaction unsignedTx;
                       signature := signature;
                       publicKeyOfSigner := publicKey account |}
                    (with_signing
                       {| chainAlive := true; signWaiting := signWaiting g;
                          signInFlight :=
                            firstn k (signInFlight g)
                              ++ skipn (S k) (signInFlight g) |} s)
              | inr e => signedTransaction_error (Thrown e) s
              end
            else (s, [])
        | _, _ => (s, [])
        end
    | FinalizeResponse r =>
        match finalizeInFlight d with
        | S n =>
            if finalizeAlive d then
              match r with
              | inl finalizedTx =>
                  finalizedTx_next finalizedTx
                    (with_downstream
                       {| finalizeAlive := true; finalizeInFlight := n;
                          submitAlive := submitAlive d;
                          submitInFlight := submitInFlight d |} s)
              | inr m => finalizedTx_catchError (finalizeTxErr m) s
              end
            else (s, [])
        | O => (s, [])
        end
    | SubmitResponse r =>
        match submitInFlight d with
        | S n =>
            if submitAlive d then
              match r with
              | inl pendingTx =>
                  (track (TransactionStateSuccess SUBMITTED (OfPending pendingTx)) >>
                   pendingTXSubject_next pendingTx)
                    (with_downstream
                       {| finalizeAlive := finalizeAlive d;
                          finalizeInFlight := finalizeInFlight d;
                          submitAlive := true; submitInFlight := n |} s)
              | inr m =>
                  (trackError (submitSignedTxErr m) SUBMITTED >>
                   modify (with_downstream
                             {| finalizeAlive := false; finalizeInFlight := 0;
                                submitAlive := false; submitInFlight := 0 |})) s
              end
            else (s, [])
        | O => (s, [])
        end
    | Tick =>
        if pollAlive p then
          match pendingSlot p with
          | Some pendingTx =>
              (with_polling {| tickSeen := true; pendingSlot := pendingSlot p;
                               pollAlive := true;
                               statusInFlight := S (statusInFlight p);
                               lastStatus := lastStatus p |} s,
               [CallTransactionStatus (pending_txID pendingTx)])
          | None =>
              (with_polling {| tickSeen := true; pendingSlot := None;
                               pollAlive := true;
                               statusInFlight := statusInFlight p;
                               lastStatus := lastStatus p |} s, [])
          end
        else (s, [])
    | StatusResponse r =>
        match statusInFlight p with
        | S n =>
            if pollAlive p then
              match r with
              | inl statusOfTransaction =>
                  let changed :=
                    match lastStatus p with
                    | Some prev =>
                        negb (TransactionStatus.eqb prev
                                (status statusOfTransaction))
                    | None => true
                    end in
                  if changed then
                    transactionStatus_next statusOfTransaction
                      (with_polling
                         {| tickSeen := tickSeen p; pendingSlot := pendingSlot p;
                            pollAlive := true; statusInFlight := n;
                            lastStatus := Some (status statusOfTransaction) |} s)
                  else
                    (with_polling
                       {| tickSeen := tickSeen p; pendingSlot := pendingSlot p;
                          pollAlive := true; statusInFlight := n;
                          lastStatus := lastStatus p |} s, [])
              | inr _ =>
                  (* the error is logged; transactionStatus$ has ended *)
                  (with_polling
                     {| tickSeen := tickSeen p; pendingSlot := pendingSlot p;
                        pollAlive := false; statusInFlight := 0;
                        lastStatus := lastStatus p |} s, [])
              end
            else (s, [])
        | O => (s, [])
        end
    end.

(** *** Runs *)

Fixpoint runFrom
  (userConfirmation : TransactionConfirmationBeforeFinalization)
  (s : State) (inputs : list Input) : State * list Output :=
  match inputs with
  | [] => (s, [])
  | i :: rest =>
      let (s1, o1) := step userConfirmation i s in
      let (s2, o2) := runFrom userConfirmation s1 rest in
      (s2, o1 ++ o2)
  end.

(** What [__makeTransactionFromIntent(transactionIntent$, options)] does
    on a sequence of inputs. *)
Definition __makeTransactionFromIntent
  (userConfirmation : TransactionConfirmationBeforeFinalization)
  (inputs : list Input) : list Output :=
  snd (runFrom userConfirmation initial inputs).

(** [tracking.events]: what a subscriber of the replayed [trackingSubject]
    sees. *)
Definition events (os : list Output) : list TransactionStateUpdate :=
  flat_map (fun o => match o with Track e => [e] | _ => [] end) os.

End Pipeline.

(** ** Vocabulary used to state the properties of the codec *)

Module APDUSpec.
Import HDPath APDU.

Definition ByteVal : Z -> Prop := Buffer.isByte.

(** Value of a big-endian octet string. *)
Definition be_value (b : Buffer.t) : Z :=
  fold_left (fun acc x => acc * 256 + x) b 0.

(** The 32-bit word of a component: its number, with the hardening bit
    set when the component is hardened. *)
Definition word (c : BIP32PathComponentT) : Z :=
  Z.lor (value c) (if isHardened c then hardener else 0).

Definition radixCoinType (p : HDPathRadixT) : Prop :=
  value (coinType p) = RADIX_COIN_TYPE /\ isHardened (coinType p) = true.

Definition pathSize (p : HDPathRadixT) : nat :=
  (1 + 4 * length (pathComponents p))%nat.

(** Octets of [data] a builder call produces, as a function of its
    input. *)
Definition payloadSize (c : BuilderCall) : nat :=
  match c with
  | CallGetAppName | CallGetVersion => 0%nat
  | CallGetPublicKey i => pathSize (gpk_path i)
  | CallDoKeyExchange i =>
      (pathSize (dke_path i)
       + (1 + length (asData (dke_publicKeyOfOtherParty i) false)))%nat
  | CallDoSignHash i =>
      (pathSize (dsh_path i) + (1 + length (dsh_hashToSign i)))%nat
  | CallSignTxInitialSetup i =>
      (pathSize (stx_path i) + 4 + 2
       + (1 + match stx_nonNativeTokenRriHRP i with
              | None => 0
              | Some hrp => length (Buffer.from_utf8 hrp)
              end))%nat
  | CallSignTxStream i => length (instructionBytes i)
  end.

(** A string all of whose code units are ASCII. *)
Definition isAscii (s : Buffer.JsString) : Prop :=
  Forall (fun c => 0 <= c < 0x80) s.

(** Modelled from the spec: the caller of [signTX.stream] (the wallet's
    signing loop, not part of the sources at hand) sends the instructions
    in order and flags the last one (section 4.4, phase B). *)
Fixpoint streamAll (instructions : list Buffer.t) : list RadixAPDUT :=
  match instructions with
  | [] => []
  | i :: rest =>
      signTxStream {| instructionBytes := i;
                      isLastInstruction :=
                        match rest with [] => true | _ => false end |}
        :: streamAll rest
  end.

(** The scenario "SIGN_TX two-instruction stream". *)
Definition scenarioInitial (hrp : Buffer.JsString) : APDUDoSignTxInitialPackage :=
  {| stx_path := radixPath 0 0 0;
     stx_txByteCount := 0x100;
     stx_nonNativeTokenRriHRP := Some hrp;
     stx_numberOfInstructions := 2 |}.

End APDUSpec.

(** ** Vocabulary used to state the properties of the pipeline *)

Module PipelineSpec.
Import TransactionTrackingEventType Pipeline.

(** The phase tag an event carries, and whether it is an error event. *)
Inductive Tag : Type :=
| Phase (t : TransactionTrackingEventType.t)
| ErrorIn (inPhase : TransactionTrackingEventType.t).

Definition tagOf (e : TransactionStateUpdate) : Tag :=
  match e with
  | TransactionStateSuccess t _ => Phase t
  | TransactionStateError t _ => ErrorIn t
  end.

Definition tags (os : list Output) : list Tag := map tagOf (events os).

(** [INITIATED?, BUILT_FROM_INTENT, ..., SUBMITTED, UPDATE*, COMPLETED] *)
Definition happyPath (withInitiated : bool) (updates : nat)
  : list TransactionTrackingEventType.t :=
  (if withInitiated then [INITIATED] else [])
    ++ [BUILT_FROM_INTENT; ASKED_FOR_CONFIRMATION; CONFIRMED; SIGNED;
        FINALIZED; SUBMITTED]
    ++ repeat UPDATE_OF_STATUS_OF_PENDING_TX updates
    ++ [COMPLETED].

Definition prefixOf {A : Type} (p l : list A) : Prop :=
  exists rest, l = p ++ rest.

(** A contiguous prefix of the happy path, possibly ended by one error
    event. *)
Definition inTrackingOrder (ts : list Tag) : Prop :=
  exists withInitiated updates p,
    prefixOf p (happyPath withInitiated updates)
    /\ (ts = map Phase p \/ exists t, ts = map Phase p ++ [ErrorIn t]).

Definition isUserConfirm (i : Input) : bool :=
  match i with UserConfirm => true | _ => false end.

(** How many times the caller invokes [confirm()]. *)
Definition confirmCalls (inputs : list Input) : nat :=
  length (filter isUserConfirm inputs).

(** The completion output: what a subscriber of [completion] sees. *)
Definition completionOutputs (os : list Output) : list Output :=
  filter (fun o => match o with
                   | CompletionNext _ | CompletionComplete
                   | CompletionError _ => true
                   | _ => false
                   end) os.

(** A call to the node or to the signing capability of the account. *)
Definition isCall (o : Output) : bool :=
  match o with
  | CallBuildTransaction _ _ | CallSign _ _ | CallFinalizeTransaction _
  | CallSubmitSignedTransaction _ | CallTransactionStatus _ => true
  | _ => false
  end.

Definition isErrorEvent (o : Output) : bool :=
  match o with
  | Track (TransactionStateError _ _) => true
  | _ => false
  end.

(** Every error event is followed at once by the failure of the
    completion output with the same error, unless an earlier error event
    ([seen]) has already failed it. *)
Fixpoint reportedTwice (seen : bool) (os : list Output) : Prop :=
  match os with
  | [] => True
  | Track (TransactionStateError _ e) :: rest =>
      (seen = true \/ exists rest', rest = CompletionError e :: rest')
      /\ reportedTwice true rest
  | _ :: rest => reportedTwice seen rest
  end.

(** The intent names at least two distinct non-native resources in its
    transfers. *)
Definition multipleNonNativeRRIs (i : TransactionIntent) : Prop :=
  exists t1 t2,
    In (IntendedTransferTokens t1) (actions i)
    /\ In (IntendedTransferTokens t2) (actions i)
    /\ name (rri t1) <> "xrd"%string
    /\ name (rri t2) <> "xrd"%string
    /\ name (rri t1) <> name (rri t2).

(** The intent passes the check of the signing step. *)
Definition signable (i : TransactionIntent) : Prop :=
  (length (uniquenonXRDHRPsOfRRIsInTx i) <= 1)%nat.

Definition transfer (n : string) : IntendedAction :=
  IntendedTransferTokens {| rri := {| name := n |} |}.

(** The caller's part in confirming, for either scheme. *)
Definition confirming (uc : TransactionConfirmationBeforeFinalization)
  : list Input :=
  match uc with
  | skip => []
  | manual => [UserConfirm]
  end.

(** A run up to the start of signing. *)
Definition untilSigning (uc : TransactionConfirmationBeforeFinalization)
  (intent : TransactionIntent) (a : AccountAddressT) (b : BuiltTransaction)
  : list Input :=
  [IntentEmitted intent a; BuildResponse (inl b)] ++ confirming uc.

Definition signedBy (b : BuiltTransaction) (acc : AccountT) (sig : Signature)
  : SignedTransaction :=
  {| signed_transaction := transaction b; signature := sig;
     publicKeyOfSigner := publicKey acc |}.

(** A run up to SUBMITTED. *)
Definition untilPending (uc : TransactionConfirmationBeforeFinalization)
  (intent : TransactionIntent) (a : AccountAddressT) (b : BuiltTransaction)
  (acc : AccountT) (sig : Signature) (f : FinalizedTransaction)
  (p : PendingTransaction) : list Input :=
  untilSigning uc intent a b
    ++ [SignInputs intent acc; SignResponse 0 (inl sig);
        FinalizeResponse (inl f); SubmitResponse (inl p)].

(** The statuses the tracking events report as updates. *)
Definition statusUpdates (os : list Output) : list StatusOfTransaction :=
  flat_map (fun o =>
              match o with
              | Track (TransactionStateSuccess UPDATE_OF_STATUS_OF_PENDING_TX
                         (OfStatus st)) => [st]
              | _ => []
              end) os.

(** A sequence of statuses with consecutive elements of equal [status]
    removed; [prev] is the status before the sequence, if any. *)
Fixpoint removeRepeats (prev : option TransactionStatus.t)
  (l : list StatusOfTransaction) : list StatusOfTransaction :=
  match l with
  | [] => []
  | st :: rest =>
      let same :=
        match prev with
        | Some q => TransactionStatus.eqb q (status st)
        | None => false
        end in
      if same then removeRepeats prev rest
      else st :: removeRepeats (Some (status st)) rest
  end.

Definition isTerminal (st : StatusOfTransaction) : bool :=
  match status st with
  | TransactionStatus.PENDING => false
  | _ => true
  end.

(** The statuses a polling loop can be given: it ends at the first
    CONFIRMED or FAILED, so only the last one may be such. *)
Fixpoint whilePolling (l : list StatusOfTransaction) : Prop :=
  match l with
  | [] => True
  | st :: rest => (isTerminal st = true -> rest = []) /\ whilePolling rest
  end.

(** The statuses answered in a sequence of polling inputs. *)
Definition answers (inputs : list Input) : list StatusOfTransaction :=
  flat_map (fun i => match i with
                     | StatusResponse (inl st) => [st]
                     | _ => []
                     end) inputs.

(** A polling schedule: only ticks and answers, and every answer is the
    answer to a call made before it ([inFlight] calls are unanswered at
    the start; every tick makes one). *)
Fixpoint pollingSchedule (inFlight : nat) (inputs : list Input) : Prop :=
  match inputs with
  | [] => True
  | Tick :: rest => pollingSchedule (S inFlight) rest
  | StatusResponse (inl _) :: rest =>
      match inFlight with
      | S n => pollingSchedule n rest
      | O => False
      end
  | _ :: _ => False
  end.

(** *** An acceptor of the tracking order, and the stages of a run *)

(** How far the phase tags seen so far have come. *)
Inductive Q : Type :=
| QStart | QInitiated | QBuilt | QAsked | QConfirmed | QSigned | QFinalized
| QPending | QCompleted | QError.

Definition delta (q : Q) (t : Tag) : option Q :=
  match t, q with
  | ErrorIn _, QError => None
  | ErrorIn _, _ => Some QError
  | Phase INITIATED, QStart => Some QInitiated
  | Phase BUILT_FROM_INTENT, QInitiated => Some QBuilt
  | Phase ASKED_FOR_CONFIRMATION, QBuilt => Some QAsked
  | Phase CONFIRMED, QAsked => Some QConfirmed
  | Phase SIGNED, QConfirmed => Some QSigned
  | Phase FINALIZED, QSigned => Some QFinalized
  | Phase SUBMITTED, QFinalized => Some QPending
  | Phase UPDATE_OF_STATUS_OF_PENDING_TX, QPending => Some QPending
  | Phase COMPLETED, QPending => Some QCompleted
  | _, _ => None
  end.

Fixpoint accept (q : Q) (ts : list Tag) : option Q :=
  match ts with
  | [] => Some q
  | t :: rest =>
      match delta q t with
      | Some q' => accept q' rest
      | None => None
      end
  end.

Definition sixPhases : list TransactionTrackingEventType.t :=
  [BUILT_FROM_INTENT; ASKED_FOR_CONFIRMATION; CONFIRMED; SIGNED; FINALIZED;
   SUBMITTED].

(** The phases seen when the acceptor is in [q], for [q] other than
    [QError]. *)
Definition phasesAt (q : Q) (ps : list TransactionTrackingEventType.t) : Prop :=
  match q with
  | QStart => ps = []
  | QInitiated => ps = [INITIATED]
  | QBuilt => ps = INITIATED :: firstn 1 sixPhases
  | QAsked => ps = INITIATED :: firstn 2 sixPhases
  | QConfirmed => ps = INITIATED :: firstn 3 sixPhases
  | QSigned => ps = INITIATED :: firstn 4 sixPhases
  | QFinalized => ps = INITIATED :: firstn 5 sixPhases
  | QPending =>
      exists k, ps = INITIATED :: sixPhases
                       ++ repeat UPDATE_OF_STATUS_OF_PENDING_TX k
  | QCompleted => exists k, ps = happyPath true k
  | QError => False
  end.

Definition tagsAt (q : Q) (ts : list Tag) : Prop :=
  match q with
  | QError => exists q0 ps t, phasesAt q0 ps /\ ts = map Phase ps ++ [ErrorIn t]
  | _ => exists ps, phasesAt q ps /\ ts = map Phase ps
  end.

(** No invocation of [confirm()] can have an effect any more: the caller
    does not hold it, or has used the one invocation allowed. *)
Definition noConfirm (uc : TransactionConfirmationBeforeFinalization)
  (used : bool) (handedOut : bool) : Prop :=
  handedOut = false \/ (uc = manual /\ used = true).

Definition pristinePolling (t : bool) : Polling :=
  {| tickSeen := t; pendingSlot := None; pollAlive := true;
     statusInFlight := 0; lastStatus := None |}.

Definition idleSigning : Signing :=
  {| chainAlive := true; signWaiting := 0; signInFlight := [] |}.

Definition idleDownstream : Downstream :=
  {| finalizeAlive := true; finalizeInFlight := 0;
     submitAlive := true; submitInFlight := 0 |}.

Definition confirmedUpstream (b : BuiltTransaction) (h : bool) : Upstream :=
  {| intentPending := false; buildInFlight := false; builtSlot := Some b;
     confirmSlot := true; confirmHandedOut := h |}.

(** Nothing is awaited and nothing can be started. *)
Definition Quiet (uc : TransactionConfirmationBeforeFinalization)
  (used : bool) (s : State) : Prop :=
  intentPending (upstream s) = false
  /\ buildInFlight (upstream s) = false
  /\ noConfirm uc used (confirmHandedOut (upstream s))
  /\ signWaiting (signing s) = 0%nat
  /\ signInFlight (signing s) = []
  /\ finalizeInFlight (downstream s) = 0%nat
  /\ submitInFlight (downstream s) = 0%nat
  /\ statusInFlight (polling s) = 0%nat
  /\ (pendingSlot (polling s) = None \/ pollAlive (polling s) = false).

(** The states of a run in which [confirm()] is invoked at most once
    ([used]: it has been), with the state of the acceptor. *)
Inductive Stage (uc : TransactionConfirmationBeforeFinalization) (used : bool)
  : State -> Q -> Prop :=
| AtStart t :
    Stage uc used
      {| upstream := {| intentPending := true; buildInFlight := false;
                        builtSlot := None; confirmSlot := false;
                        confirmHandedOut := false |};
         signing := idleSigning; downstream := idleDownstream;
         polling := pristinePolling t; completion := Open |} QStart
| AtBuilding t :
    Stage uc used
      {| upstream := {| intentPending := false; buildInFlight := true;
                        builtSlot := None; confirmSlot := false;
                        confirmHandedOut := false |};
         signing := idleSigning; downstream := idleDownstream;
         polling := pristinePolling t; completion := Open |} QInitiated
| AtAwaiting t b :
    uc = manual ->
    Stage uc used
      {| upstream := {| intentPending := false; buildInFlight := false;
                        builtSlot := Some b; confirmSlot := false;
                        confirmHandedOut := true |};
         signing := idleSigning; downstream := idleDownstream;
         polling := pristinePolling t; completion := Open |} QAsked
| AtSignWaiting t b h :
    noConfirm uc used h ->
    Stage uc used
      {| upstream := confirmedUpstream b h;
         signing := {| chainAlive := true; signWaiting := 1;
                       signInFlight := [] |};
         downstream := idleDownstream;
         polling := pristinePolling t; completion := Open |} QConfirmed
| AtSigning t b h acc :
    noConfirm uc used h ->
    Stage uc used
      {| upstream := confirmedUpstream b h;
         signing := {| chainAlive := true; signWaiting := 0;
                       signInFlight := [acc] |};
         downstream := idleDownstream;
         polling := pristinePolling t; completion := Open |} QConfirmed
| AtFinalizing t b h :
    noConfirm uc used h ->
    Stage uc used
      {| upstream := confirmedUpstream b h; signing := idleSigning;
         downstream := {| finalizeAlive := true; finalizeInFlight := 1;
                          submitAlive := true; submitInFlight := 0 |};
         polling := pristinePolling t; completion := Open |} QSigned
| AtSubmitting t b h :
    noConfirm uc used h ->
    Stage uc used
      {| upstream := confirmedUpstream b h; signing := idleSigning;
         downstream := {| finalizeAlive := true; finalizeInFlight := 0;
                          submitAlive := true; submitInFlight := 1 |};
         polling := pristinePolling t; completion := Open |} QFinalized
| AtPolling b h p :
    noConfirm uc used h ->
    Stage uc used
      {| upstream := confirmedUpstream b h; signing := idleSigning;
         downstream := idleDownstream;
         polling := p; completion := Open |} QPending
| AtRest s q :
    Quiet uc used s ->
    q = QCompleted \/ q = QError ->
    Stage uc used s q.

(** *** Sample values for concrete runs *)

Definition xrdIntent : TransactionIntent := {| actions := [transfer "xrd"] |}.
Definition fooBarIntent : TransactionIntent :=
  {| actions := [transfer "foo"; transfer "bar"] |}.
Definition alice : AccountT := {| address := "alice"%string; publicKey := "pk"%string |}.
Definition builtTx : BuiltTransaction := {| transaction := "blob"%string; fee := 1 |}.
Definition finalizedTx : FinalizedTransaction :=
  {| finalized_signed := signedBy builtTx alice "sig"%string;
     finalized_txID := "tx1"%string |}.
Definition pendingTx : PendingTransaction := {| pending_txID := "tx1"%string |}.
Definition statusOf (st : TransactionStatus.t) : StatusOfTransaction :=
  {| txID := "tx1"%string; status := st |}.

(** *** Facts about every state of every run *)

(** Nothing has happened downstream of the build. *)
Definition Pristine (s : State) : Prop :=
  builtSlot (upstream s) = None
  /\ confirmHandedOut (upstream s) = false
  /\ signWaiting (signing s) = 0%nat
  /\ signInFlight (signing s) = []
  /\ finalizeInFlight (downstream s) = 0%nat
  /\ submitInFlight (downstream s) = 0%nat
  /\ pendingSlot (polling s) = None
  /\ statusInFlight (polling s) = 0%nat.

(** [seen]: an error event has been emitted. *)
Definition Sound (seen : bool) (s : State) : Prop :=
  ((intentPending (upstream s) = true \/ buildInFlight (upstream s) = true) ->
   Pristine s /\ completion s = Open)
  /\ (completion s = Completed ->
      intentPending (upstream s) = false
      /\ buildInFlight (upstream s) = false
      /\ finalizeAlive (downstream s) = false
      /\ submitAlive (downstream s) = false
      /\ pollAlive (polling s) = false)
  /\ (completion s = Failed -> seen = true)
  /\ (buildInFlight (upstream s) = true -> intentPending (upstream s) = false).

Definition isIntentEmitted (i : Input) : bool :=
  match i with IntentEmitted _ _ => true | _ => false end.

Definition isBuildResponse (i : Input) : bool :=
  match i with BuildResponse _ => true | _ => false end.

Definition hasErrorEvent (os : list Output) : bool := existsb isErrorEvent os.

(** Before the intent arrives. *)
Definition startState (t : bool) : State :=
  {| upstream := {| intentPending := true; buildInFlight := false;
                    builtSlot := None; confirmSlot := false;
                    confirmHandedOut := false |};
     signing := idleSigning; downstream := idleDownstream;
     polling := pristinePolling t; completion := Open |}.

(** While [api.buildTransaction] has not answered. *)
Definition buildingState (t : bool) : State :=
  {| upstream := {| intentPending := false; buildInFlight := true;
                    builtSlot := None; confirmSlot := false;
                    confirmHandedOut := false |};
     signing := idleSigning; downstream := idleDownstream;
     polling := pristinePolling t; completion := Open |}.

(** After [api.buildTransaction] has failed. *)
Definition buildFailedState (t : bool) : State :=
  {| upstream := {| intentPending := false; buildInFlight := false;
                    builtSlot := None; confirmSlot := false;
                    confirmHandedOut := false |};
     signing := idleSigning; downstream := idleDownstream;
     polling := pristinePolling t; completion := Failed |}.

(** The signing chain has ended and nothing is awaited. *)
Definition Dead (s : State) : Prop :=
  intentPending (upstream s) = false
  /\ buildInFlight (upstream s) = false
  /\ chainAlive (signing s) = false
  /\ finalizeInFlight (downstream s) = 0%nat
  /\ submitInFlight (downstream s) = 0%nat
  /\ statusInFlight (polling s) = 0%nat
  /\ (pendingSlot (polling s) = None \/ pollAlive (polling s) = false).

Definition isCallSign (o : Output) : bool :=
  match o with CallSign _ _ => true | _ => false end.

(** What the caller's subject receives under the manual scheme. *)
Definition asking (uc : TransactionConfirmationBeforeFinalization)
  (b : BuiltTransaction) : list Output :=
  match uc with
  | skip => []
  | manual => [AskUser b]
  end.

(** The outputs of a run up to the start of signing. *)
Definition outputsUntilSigning (uc : TransactionConfirmationBeforeFinalization)
  (intent : TransactionIntent) (a : AccountAddressT) (b : BuiltTransaction)
  : list Output :=
  [Track (TransactionStateSuccess INITIATED (OfIntent intent));
   CallBuildTransaction intent a;
   Track (TransactionStateSuccess BUILT_FROM_INTENT (OfBuilt b))]
    ++ asking uc b
    ++ [Track (TransactionStateSuccess ASKED_FOR_CONFIRMATION (OfBuilt b));
        Track (TransactionStateSuccess CONFIRMED (OfBuilt b))].

(** The state when signing starts. *)
Definition signingState (uc : TransactionConfirmationBeforeFinalization)
  (b : BuiltTransaction) : State :=
  {| upstream := confirmedUpstream b (negb (shouldConfirmTransactionAutomatically uc));
     signing := {| chainAlive := true; signWaiting := 1; signInFlight := [] |};
     downstream := idleDownstream;
     polling := pristinePolling false; completion := Open |}.

(** The polling loop is running: [n] calls are unanswered and [l] is the
    last status it let through. *)
Definition Polls (s : State) (n : nat) (l : option TransactionStatus.t) : Prop :=
  pollAlive (polling s) = true
  /\ pendingSlot (polling s) <> None
  /\ statusInFlight (polling s) = n
  /\ lastStatus (polling s) = l.

Definition isPollingInput (i : Input) : bool :=
  match i with
  | Tick | StatusResponse _ => true
  | _ => false
  end.

(** The prefix [account.sign] is given for an intent. *)
Definition hrpOf (intent : TransactionIntent) : option string :=
  match uniquenonXRDHRPsOfRRIsInTx intent with
  | [hrp] => Some hrp
  | _ => None
  end.

End PipelineSpec.

(** ** Vocabulary for further properties of the codec *)

Module APDUMoreSpec.
Import HDPath APDU.

(** The coin type is not 536'. *)
Definition foreignCoinType (p : HDPathRadixT) : Prop :=
  value (coinType p) <> RADIX_COIN_TYPE \/ isHardened (coinType p) = false.

Definition coinTypeError : JsError := Error "Expected coinType to be 536'".

Definition hrpTooLong : JsError :=
  Error "Non native token HRP must not longer than 255.".

(** [v] fits an unsigned integer of [bits] bits. *)
Definition fits (bits : Z) (v : Z) : bool := (0 <=? v) && (v <? 2 ^ bits).

(** The frame a builder makes from instruction, p1, p2 and data. *)
Definition frame (i : LedgerInstruction) (p1 p2 : Z) (d : Buffer.t)
  : RadixAPDUT :=
  {| cla := 0xAA; ins := i; p1 := p1; p2 := p2; data := Some d;
     requiredResponseStatusCodeFromDevice := [0x9000] |}.

End APDUMoreSpec.

(** ** Vocabulary for the cases of the path encoder *)

Module PathEncodingSpec.
Import HDPath APDU APDUMoreSpec.

(** The coin type is 536'. *)
Definition radixCoinTypeb (p : HDPathRadixT) : bool :=
  (value (coinType p) =? RADIX_COIN_TYPE) && isHardened (coinType p).

(** Every component's [index] fits 32 bits and the number of components
    fits one octet. *)
Definition encodable (p : HDPathRadixT) : bool :=
  forallb (fun c => fits 32 (index c)) (pathComponents p)
  && (length (pathComponents p) <=? 255)%nat.

End PathEncodingSpec.

(** ** [transactionStatus(txID, trigger)] of the object [Radix.create]
    returns (radix.ts) *)

Module TransactionStatusStream.
Import Pipeline.

(** What a subscriber of the returned observable is notified of. *)
Inductive Notification : Type :=
| Next (statusOfTransaction : StatusOfTransaction)
| Failure (e : ErrorT).

Section WithEquals.

(** [equals] of a transaction identifier (@radixdlt/primitives) is not
    part of the sources at hand: it is a parameter. *)
Variable equals : TransactionIdentifierT -> TransactionIdentifierT -> bool.

(** The notifications for the answers of [api.transactionStatus(txID)],
    in the order in which they arrive; an answer is a status or the
    message of the underlying error. [prev] is the last status
    [distinctUntilChanged] let through. The parameter of the [filter]
    callback is destructured into a [txID] of its own. *)
Fixpoint transactionStatus_from (prev : option StatusOfTransaction)
  (txID : TransactionIdentifierT)
  (answers : list (StatusOfTransaction + string)) : list Notification :=
  match answers with
  | [] => []
  | inr m :: _ => [Failure (txStatusErr m)]
  | inl cur :: rest =>
      let same :=
        match prev with
        | Some prev => TransactionStatus.eqb (status prev) (status cur)
        | None => false
        end in
      if same then transactionStatus_from prev txID rest
      else
        (if (fun st => let txID := Pipeline.txID st in equals txID txID) cur
         then [Next cur] else [])
          ++ transactionStatus_from (Some cur) txID rest
  end.

Definition transactionStatus (txID : TransactionIdentifierT)
  (answers : list (StatusOfTransaction + string)) : list Notification :=
  transactionStatus_from None txID answers.

End WithEquals.

(** The statuses among the notifications. *)
Definition statuses (ns : list Notification) : list StatusOfTransaction :=
  flat_map (fun n => match n with Next st => [st] | Failure _ => [] end) ns.

(** The answers before the first failed call. *)
Fixpoint answeredBeforeFailure (answers : list (StatusOfTransaction + string))
  : list StatusOfTransaction :=
  match answers with
  | inl st :: rest => st :: answeredBeforeFailure rest
  | _ => []
  end.

End TransactionStatusStream.

(** ** Vocabulary for further properties of the pipeline *)

Module PipelineMoreSpec.
Import TransactionTrackingEventType Pipeline PipelineSpec.

(** The outputs of a run up to SUBMITTED, after the start of signing. *)
Definition outputsOfSigning (intent : TransactionIntent) (b : BuiltTransaction)
  (acc : AccountT) (sig : Signature) : list Output :=
  [CallSign (transaction b) (hrpOf intent);
   Track (TransactionStateSuccess SIGNED (OfSigned (signedBy b acc sig)));
   CallFinalizeTransaction (signedBy b acc sig)].

Definition outputsUntilPending
  (uc : TransactionConfirmationBeforeFinalization)
  (intent : TransactionIntent) (a : AccountAddressT) (b : BuiltTransaction)
  (acc : AccountT) (sig : Signature) (f : FinalizedTransaction)
  (p : PendingTransaction) : list Output :=
  outputsUntilSigning uc intent a b
    ++ outputsOfSigning intent b acc sig
    ++ [Track (TransactionStateSuccess FINALIZED (OfFinalized f));
        CallSubmitSignedTransaction f;
        Track (TransactionStateSuccess SUBMITTED (OfPending p))].

(** The state when SUBMITTED has been tracked. *)
Definition pendingState (uc : TransactionConfirmationBeforeFinalization)
  (b : BuiltTransaction) (p : PendingTransaction) : State :=
  {| upstream := confirmedUpstream b (negb (shouldConfirmTransactionAutomatically uc));
     signing := idleSigning;
     downstream := idleDownstream;
     polling := {| tickSeen := false; pendingSlot := Some p; pollAlive := true;
                   statusInFlight := 0; lastStatus := None |};
     completion := Open |}.

(** The state when the finalize call is awaited. *)
Definition finalizingState (uc : TransactionConfirmationBeforeFinalization)
  (b : BuiltTransaction) : State :=
  {| upstream := confirmedUpstream b (negb (shouldConfirmTransactionAutomatically uc));
     signing := idleSigning;
     downstream := {| finalizeAlive := true; finalizeInFlight := 1;
                      submitAlive := true; submitInFlight := 0 |};
     polling := pristinePolling false;
     completion := Open |}.

(** Whether the caller's invocations of [confirm()] in [inputs] can have
    an effect: none under ['skip'], where it is never handed out. *)
Definition noLateConfirm (uc : TransactionConfirmationBeforeFinalization)
  (inputs : list Input) : Prop :=
  uc = skip \/ confirmCalls inputs = 0%nat.

(** The message of the error for a transaction the node reports as
    failed. *)
Definition failedMessage (id : TransactionIdentifierT) : string :=
  ("API status of tx with id=" ++ id ++ " returned 'FAILED'")%string.

(** What the pipeline can do before the caller has confirmed. *)
Definition beforeConfirmation (o : Output) : bool :=
  match o with
  | Track (TransactionStateSuccess INITIATED _)
  | Track (TransactionStateSuccess BUILT_FROM_INTENT _)
  | Track (TransactionStateSuccess ASKED_FOR_CONFIRMATION _)
  | Track (TransactionStateError BUILT_FROM_INTENT _)
  | CompletionError _
  | AskUser _
  | CallBuildTransaction _ _ => true
  | _ => false
  end.

(** Nothing has happened downstream of the confirmation. *)
Definition Unconfirmed (s : State) : Prop :=
  confirmSlot (upstream s) = false
  /\ signWaiting (signing s) = 0%nat
  /\ signInFlight (signing s) = []
  /\ finalizeInFlight (downstream s) = 0%nat
  /\ submitInFlight (downstream s) = 0%nat
  /\ pendingSlot (polling s) = None
  /\ statusInFlight (polling s) = 0%nat.

(** What the completion output has seen, for each state of the
    completion subject: nothing, one error, or the identifier of a
    transaction whose status CONFIRMED was tracked as COMPLETED, followed
    by the end of the stream. *)
Definition settled (c : CompletionState) (os : list Output) : Prop :=
  match c with
  | Open => completionOutputs os = []
  | Failed => exists e, completionOutputs os = [CompletionError e]
  | Completed =>
      exists st,
        status st = TransactionStatus.CONFIRMED
        /\ In (Track (TransactionStateSuccess COMPLETED (OfStatus st))) os
        /\ completionOutputs os
           = [CompletionNext (txID st); CompletionComplete]
  end.

(** The identifier of the transaction submitted last, [submitted] being
    the one before [os]. *)
Definition lastSubmitted (submitted : option TransactionIdentifierT)
  (os : list Output) : option TransactionIdentifierT :=
  fold_left (fun acc o =>
               match o with
               | Track (TransactionStateSuccess SUBMITTED (OfPending p)) =>
                   Some (pending_txID p)
               | _ => acc
               end) os submitted.

(** Every status call asks for the transaction submitted last before
    the call. *)
Fixpoint pollsSubmitted (submitted : option TransactionIdentifierT)
  (os : list Output) : Prop :=
  match os with
  | [] => True
  | CallTransactionStatus id :: rest =>
      submitted = Some id /\ pollsSubmitted submitted rest
  | o :: rest => pollsSubmitted (lastSubmitted submitted [o]) rest
  end.

(** The polling loop, while it runs, holds the transaction submitted
    last. *)
Definition PollsFor (submitted : option TransactionIdentifierT) (s : State)
  : Prop :=
  pollAlive (polling s) = true ->
  option_map pending_txID (pendingSlot (polling s)) = submitted.

(** The names of the resources the transfers of an intent name. *)
Definition transfers (i : TransactionIntent) (n : string) : Prop :=
  exists t, In (IntendedTransferTokens t) (actions i) /\ name (rri t) = n.

End PipelineMoreSpec.

(** * Part II: properties *)

(** ** Octet strings *)

Module BufferFacts.
Import APDUSpec.

Lemma be_bytes_length n v : length (Buffer.be_bytes n v) = n.
Proof. induction n; simpl; congruence. Qed.

Lemma land_255 v : Z.land v 255 = v mod 256.
Proof. change 255 with (Z.ones 8). now rewrite Z.land_ones by lia. Qed.

Lemma be_bytes_bytes n v : Forall ByteVal (Buffer.be_bytes n v).
Proof.
  induction n; cbn [Buffer.be_bytes]; constructor; auto.
  unfold ByteVal, Buffer.isByte. rewrite land_255.
  pose proof (Z.mod_pos_bound (Z.shiftr v (8 * Z.of_nat n)) 256). lia.
Qed.

Lemma fold_be_acc b : forall acc,
  fold_left (fun acc x => acc * 256 + x) b acc
  = acc * 256 ^ Z.of_nat (length b) + be_value b.
Proof.
  unfold be_value.
  induction b as [|x b IH]; intros acc; cbn [fold_left].
  - cbn [length]. change (256 ^ Z.of_nat 0) with 1. lia.
  - rewrite (IH (acc * 256 + x)), (IH (0 * 256 + x)).
    replace (Z.of_nat (length (x :: b))) with (Z.of_nat (length b) + 1)
      by (simpl length; lia).
    rewrite Z.pow_add_r by lia. lia.
Qed.

Lemma be_value_cons x b :
  be_value (x :: b) = x * 256 ^ Z.of_nat (length b) + be_value b.
Proof. unfold be_value at 1. cbn [fold_left]. rewrite fold_be_acc. lia. Qed.

(** Only the low [8 n] bits of a value reach its [n] octets. *)
Lemma be_bytes_mod n v :
  Buffer.be_bytes n v = Buffer.be_bytes n (v mod 2 ^ (8 * Z.of_nat n)).
Proof.
  assert (G : forall k, (k <= n)%nat ->
            Buffer.be_bytes k v
            = Buffer.be_bytes k (v mod 2 ^ (8 * Z.of_nat n))).
  { induction k as [|k IHk]; intros Hk; [reflexivity|].
    cbn [Buffer.be_bytes]. rewrite IHk by lia. f_equal.
    apply Z.bits_inj'. intros i Hi.
    rewrite !Z.land_spec, !Z.shiftr_spec by lia.
    destruct (Z.testbit 255 i) eqn:E; [|now rewrite !andb_false_r].
    rewrite !andb_true_r.
    assert (i < 8).
    { destruct (Z_lt_ge_dec i 8); [assumption|].
      change 255 with (Z.ones 8) in E.
      rewrite Z.ones_spec_high in E by lia. discriminate. }
    rewrite Z.mod_pow2_bits_low by lia. reflexivity. }
  apply G. lia.
Qed.

Lemma pow_256 n : 256 ^ Z.of_nat n = 2 ^ (8 * Z.of_nat n).
Proof.
  replace 256 with (2 ^ 8) by reflexivity.
  rewrite <- Z.pow_mul_r by lia. reflexivity.
Qed.

Lemma pow_2_succ n : 2 ^ (8 * Z.of_nat (S n)) = 2 ^ (8 * Z.of_nat n) * 256.
Proof.
  replace (8 * Z.of_nat (S n)) with (8 * Z.of_nat n + 8) by lia.
  rewrite Z.pow_add_r by lia. reflexivity.
Qed.

(** The octets written by [writeUIntBE] read back, big-endian, as the
    value written. *)
Lemma be_value_be_bytes n : forall v,
  0 <= v < 2 ^ (8 * Z.of_nat n) -> be_value (Buffer.be_bytes n v) = v.
Proof.
  induction n as [|n IH]; intros v Hv.
  - change (2 ^ (8 * Z.of_nat 0)) with 1 in Hv.
    unfold be_value. cbn. lia.
  - cbn [Buffer.be_bytes]. rewrite be_value_cons, be_bytes_length.
    rewrite land_255, Z.shiftr_div_pow2 by lia.
    rewrite pow_2_succ in Hv. rewrite pow_256.
    rewrite (be_bytes_mod n v).
    set (P := 2 ^ (8 * Z.of_nat n)) in *.
    assert (HP : 0 < P) by (apply Z.pow_pos_nonneg; lia).
    assert (Hq : 0 <= v / P < 256).
    { split; [apply Z.div_pos; lia|apply Z.div_lt_upper_bound; lia]. }
    rewrite (Z.mod_small (v / P)) by lia.
    rewrite IH by (apply Z.mod_pos_bound; lia).
    pose proof (Z.div_mod v P). lia.
Qed.

Lemma be_value_bound b :
  Forall ByteVal b -> 0 <= be_value b < 2 ^ (8 * Z.of_nat (length b)).
Proof.
  induction 1 as [|x b Hx _ IH].
  - unfold be_value. cbn. lia.
  - rewrite be_value_cons, pow_256. cbn [length]. rewrite pow_2_succ.
    unfold ByteVal, Buffer.isByte in Hx. nia.
Qed.

(** Conversely, the big-endian octets of the value of an octet string
    are the string. *)
Lemma be_bytes_be_value b :
  Forall ByteVal b -> Buffer.be_bytes (length b) (be_value b) = b.
Proof.
  induction 1 as [|x b Hx Hb IH]; [reflexivity|].
  cbn [length Buffer.be_bytes]. rewrite be_value_cons, pow_256.
  pose proof (be_value_bound b Hb) as Hbd.
  set (P := 2 ^ (8 * Z.of_nat (length b))) in *.
  assert (HP : 0 < P) by (apply Z.pow_pos_nonneg; lia).
  unfold ByteVal, Buffer.isByte in Hx.
  f_equal.
  - rewrite land_255, Z.shiftr_div_pow2 by lia. fold P.
    replace ((x * P + be_value b) / P) with x.
    + apply Z.mod_small. lia.
    + apply Z.div_unique with (r := be_value b); lia.
  - rewrite be_bytes_mod. fold P.
    replace ((x * P + be_value b) mod P) with (be_value b); [exact IH|].
    apply Z.mod_unique with (q := x); lia.
Qed.

Lemma blit_length buf off bytes :
  (off + length bytes <= length buf)%nat ->
  length (Buffer.blit buf off bytes) = length buf.
Proof.
  intros H. unfold Buffer.blit.
  rewrite !length_app, length_firstn, length_skipn. lia.
Qed.

Lemma writeUIntBE_length w buf v off buf' :
  Buffer.writeUIntBE w buf v off = Ok buf' -> length buf' = length buf.
Proof.
  unfold Buffer.writeUIntBE.
  destruct (_ && _); [|discriminate].
  destruct (Nat.leb_spec (off + w) (length buf)); [|discriminate].
  intros [= <-]. apply blit_length. now rewrite be_bytes_length.
Qed.

Lemma writeUIntBE_alloc w v :
  0 <= v < 2 ^ (8 * Z.of_nat w) ->
  Buffer.writeUIntBE w (Buffer.alloc w) v 0 = Ok (Buffer.be_bytes w v).
Proof.
  intros Hv. unfold Buffer.writeUIntBE, Buffer.alloc.
  replace (0 <=? v) with true by (symmetry; apply Z.leb_le; lia).
  replace (v <? 2 ^ (8 * Z.of_nat w)) with true
    by (symmetry; apply Z.ltb_lt; lia).
  cbn [andb]. rewrite repeat_length, Nat.add_0_l, Nat.leb_refl.
  unfold Buffer.blit. cbn [firstn app].
  rewrite be_bytes_length, Nat.add_0_l.
  rewrite skipn_all2 by (rewrite repeat_length; lia).
  now rewrite app_nil_r.
Qed.

Lemma writeUIntBE_alloc_inv w v b :
  Buffer.writeUIntBE w (Buffer.alloc w) v 0 = Ok b ->
  0 <= v < 2 ^ (8 * Z.of_nat w) /\ b = Buffer.be_bytes w v.
Proof.
  intros H.
  assert (Hv : 0 <= v < 2 ^ (8 * Z.of_nat w)).
  { unfold Buffer.writeUIntBE in H.
    destruct (Z.leb_spec 0 v); destruct (Z.ltb_spec v (2 ^ (8 * Z.of_nat w)));
      cbn [andb] in H; try discriminate. lia. }
  split; [assumption|].
  rewrite writeUIntBE_alloc in H by assumption. congruence.
Qed.

Lemma be_bytes_1 v : 0 <= v <= 255 -> Buffer.be_bytes 1 v = [v].
Proof.
  intros Hv. cbn [Buffer.be_bytes]. change (8 * Z.of_nat 0) with 0.
  rewrite Z.shiftr_0_r, land_255, Z.mod_small by lia. reflexivity.
Qed.

End BufferFacts.

(** ** The APDU codec *)

Module APDUFacts.
Import HDPath APDU APDUSpec BufferFacts.

Lemma word_index c : wf c -> word c = index c.
Proof.
  unfold wf, word, value, hardener. destruct (isHardened c); intros H.
  - change 0x80000000 with (2 ^ 31) in *.
    set (v := index c - 2 ^ 31) in *.
    replace (index c) with (v + 2 ^ 31) by (subst v; lia).
    assert (Hland : Z.land v (2 ^ 31) = 0).
    { apply Z.bits_inj'. intros i Hi. rewrite Z.land_spec, Z.bits_0.
      destruct (Z.eq_dec i 31) as [->|Hne].
      - replace (Z.testbit v 31) with false; [reflexivity|].
        symmetry. destruct (Z.eq_dec v 0) as [->|]; [reflexivity|].
        apply Z.bits_above_log2; [lia|].
        apply Z.log2_lt_pow2; lia.
      - rewrite (Z.pow2_bits_false 31 i) by lia. apply andb_false_r. }
    rewrite Z.add_nocarry_lxor, Z.lxor_lor by exact Hland. reflexivity.
  - apply Z.lor_0_r.
Qed.

Lemma wf_index_range c : wf c -> 0 <= index c < 2 ^ 32.
Proof.
  unfold wf, value, hardener. change (2 ^ 32) with 4294967296.
  destruct (isHardened c); lia.
Qed.

Lemma forEach_length comps : forall i data out,
  hdPathComponentsToBuffer_forEach comps i data = Ok out ->
  length out = length data.
Proof.
  induction comps as [|c comps IH]; intros i data out H; cbn in H.
  - congruence.
  - unfold bind in H.
    destruct (Buffer.writeUInt32BE data (index c) (i * 4)) as [d|] eqn:E;
      [|discriminate].
    apply IH in H. apply writeUIntBE_length in E. congruence.
Qed.

Lemma forEach_spec comps : forall i pre,
  length pre = (i * 4)%nat ->
  Forall (fun c => 0 <= index c < 2 ^ 32) comps ->
  hdPathComponentsToBuffer_forEach comps i
    (pre ++ Buffer.alloc (4 * length comps))
  = Ok (pre ++ flat_map (fun c => Buffer.be_bytes 4 (index c)) comps).
Proof.
  induction comps as [|c comps IH]; intros i pre Hpre Hall.
  - cbn. now rewrite app_nil_r.
  - inversion Hall as [|? ? Hc Hall']; subst.
    cbn [hdPathComponentsToBuffer_forEach].
    unfold Buffer.writeUInt32BE, Buffer.writeUIntBE.
    replace (0 <=? index c) with true by (symmetry; apply Z.leb_le; lia).
    replace (index c <? 2 ^ (8 * Z.of_nat 4)) with true
      by (symmetry; apply Z.ltb_lt; change (8 * Z.of_nat 4) with 32; lia).
    cbn [andb].
    assert (Hlen : (i * 4 + 4 <=? length (pre ++ Buffer.alloc (4 * length (c :: comps))))%nat = true).
    { apply Nat.leb_le. unfold Buffer.alloc.
      rewrite length_app, repeat_length. simpl length. lia. }
    rewrite Hlen. cbn [bind].
    assert (Hblit :
      Buffer.blit (pre ++ Buffer.alloc (4 * length (c :: comps))) (i * 4)
        (Buffer.be_bytes 4 (index c))
      = (pre ++ Buffer.be_bytes 4 (index c)) ++ Buffer.alloc (4 * length comps)).
    { unfold Buffer.blit. rewrite be_bytes_length, <- Hpre.
      rewrite firstn_app, firstn_all, Nat.sub_diag. cbn [firstn].
      rewrite app_nil_r, skipn_app, skipn_all2 by lia.
      replace (length pre + 4 - length pre)%nat with 4%nat by lia.
      unfold Buffer.alloc.
      replace (4 * length (c :: comps))%nat with (4 + 4 * length comps)%nat
        by (simpl length; lia).
      rewrite repeat_app, skipn_app, repeat_length, Nat.sub_diag.
      rewrite skipn_all2 by (rewrite repeat_length; lia).
      cbn [skipn app]. now rewrite <- app_assoc. }
    rewrite Hblit, IH; auto.
    + cbn [flat_map]. now rewrite <- app_assoc.
    + rewrite length_app, be_bytes_length. lia.
Qed.

Lemma wf_all_range l :
  Forall wf l -> Forall (fun c => 0 <= index c < 2 ^ 32) l.
Proof. induction 1; constructor; auto using wf_index_range. Qed.

Lemma flat_map_word l :
  Forall wf l ->
  flat_map (fun c => Buffer.be_bytes 4 (index c)) l
  = flat_map (fun c => Buffer.be_bytes 4 (word c)) l.
Proof.
  induction 1 as [|c l Hc _ IH]; [reflexivity|].
  cbn [flat_map]. now rewrite word_index, IH.
Qed.

Lemma hdPathToBuffer_spec p :
  radixCoinType p ->
  Forall wf (pathComponents p) ->
  (length (pathComponents p) <= 255)%nat ->
  hdPathToBuffer p
  = Ok (Z.of_nat (length (pathComponents p))
          :: flat_map (fun c => Buffer.be_bytes 4 (word c)) (pathComponents p)).
Proof.
  intros [Hv Hh] Hwf Hlen.
  unfold hdPathToBuffer, hdPathComponentsToBuffer.
  rewrite Hv, Hh, Z.eqb_refl. cbn [negb orb].
  pose proof (forEach_spec (pathComponents p) 0 [] eq_refl
                (wf_all_range _ Hwf)) as F.
  cbn [app] in F. rewrite F. cbn [bind]. unfold Buffer.writeUInt8.
  rewrite writeUIntBE_alloc by (change (2 ^ (8 * Z.of_nat 1)) with 256; lia).
  cbn [bind]. rewrite be_bytes_1 by lia.
  unfold Buffer.concat. cbn [List.concat app]. rewrite app_nil_r.
  now rewrite flat_map_word.
Qed.

(** Whenever the path serialises at all, it takes one octet of count and
    four octets per component. *)
Lemma hdPathToBuffer_length p b :
  hdPathToBuffer p = Ok b ->
  length b = (1 + 4 * length (pathComponents p))%nat.
Proof.
  unfold hdPathToBuffer, hdPathComponentsToBuffer.
  destruct (_ || _); [discriminate|].
  destruct (hdPathComponentsToBuffer_forEach _ _ _) as [d|] eqn:E;
    [|discriminate].
  cbn [bind]. unfold Buffer.writeUInt8.
  destruct (Buffer.writeUIntBE 1 _ _ _) as [c|] eqn:Ec; [|discriminate].
  cbn [bind]. intros [= <-].
  apply forEach_length in E. apply writeUIntBE_length in Ec.
  unfold Buffer.concat, Buffer.alloc in *. cbn [List.concat].
  rewrite !length_app, repeat_length in *. cbn [length] in *. lia.
Qed.

(** *** HD-path encoding *)

(** C8, the claim as stated fails: the default Radix path does not
    serialise to [05 80000054 80000218 ...]; purpose 44 is 0x2C, not
    0x54. *)
Lemma hdPathToBuffer_default_path_is_not_0x54 :
  hdPathToBuffer (radixPath 0 0 0)
  <> Ok [0x05; 0x80; 0x00; 0x00; 0x54; 0x80; 0x00; 0x02; 0x18;
         0x80; 0x00; 0x00; 0x00; 0x00; 0x00; 0x00; 0x00;
         0x00; 0x00; 0x00; 0x00].
Proof. vm_compute. intros H. inversion H. Qed.

(** C8, amended: for m/44'/536'/0'/0/0, [hdPathToBuffer] returns the 21
    octets [05 8000002C 80000218 80000000 00000000 00000000]; in general,
    for a Radix path of well-formed components, it returns one octet of
    component count followed, per component, by the four big-endian
    octets of the component's number with the hardening bit 0x80000000
    set exactly when the component is hardened. *)
Theorem hdPathToBuffer_encoding :
  hdPathToBuffer (radixPath 0 0 0)
  = Ok [0x05; 0x80; 0x00; 0x00; 0x2C; 0x80; 0x00; 0x02; 0x18;
        0x80; 0x00; 0x00; 0x00; 0x00; 0x00; 0x00; 0x00;
        0x00; 0x00; 0x00; 0x00]
  /\ forall p,
      radixCoinType p ->
      Forall wf (pathComponents p) ->
      (length (pathComponents p) <= 255)%nat ->
      hdPathToBuffer p
      = Ok (Z.of_nat (length (pathComponents p))
              :: flat_map (fun c => Buffer.be_bytes 4 (word c))
                   (pathComponents p))
      /\ Forall (fun c => length (Buffer.be_bytes 4 (word c)) = 4%nat
                          /\ be_value (Buffer.be_bytes 4 (word c)) = word c)
           (pathComponents p).
Proof.
  split; [reflexivity|].
  intros p Hc Hwf Hlen. split; [now apply hdPathToBuffer_spec|].
  clear Hlen Hc. induction Hwf as [|c l Hc _ IH]; constructor; auto.
  split; [apply be_bytes_length|].
  apply be_value_be_bytes. rewrite word_index by assumption.
  change (8 * Z.of_nat 4) with 32. now apply wf_index_range.
Qed.

Lemma hdPathToBuffer_encoding_witness :
  radixCoinType (radixPath 0 0 0)
  /\ Forall wf (pathComponents (radixPath 0 0 0))
  /\ (length (pathComponents (radixPath 0 0 0)) <= 255)%nat
  /\ hdPathToBuffer (radixPath 0 0 0)
     = Ok (Z.of_nat (length (pathComponents (radixPath 0 0 0)))
             :: flat_map (fun c => Buffer.be_bytes 4 (word c))
                  (pathComponents (radixPath 0 0 0))).
Proof.
  assert (C : radixCoinType (radixPath 0 0 0)) by (split; reflexivity).
  assert (W : Forall wf (pathComponents (radixPath 0 0 0))).
  { repeat constructor; vm_compute; congruence. }
  assert (L : (length (pathComponents (radixPath 0 0 0)) <= 255)%nat).
  { simpl. lia. }
  split; [exact C|]. split; [exact W|]. split; [exact L|].
  exact (proj1 (proj2 hdPathToBuffer_encoding (radixPath 0 0 0) C W L)).
Defined.

(** The encoder rejects a path whose coin type is not 536'. *)
Lemma hdPathToBuffer_rejects p :
  value (coinType p) <> RADIX_COIN_TYPE \/ isHardened (coinType p) = false ->
  hdPathToBuffer p = Throw (Error "Expected coinType to be 536'").
Proof.
  intros H. unfold hdPathToBuffer, hdPathComponentsToBuffer.
  replace (negb (value (coinType p) =? RADIX_COIN_TYPE)
           || negb (isHardened (coinType p))) with true; [reflexivity|].
  symmetry. apply orb_true_iff. destruct H as [H|H].
  - left. apply negb_true_iff, Z.eqb_neq, H.
  - right. now rewrite H.
Qed.

(** *** SIGN_TX frames *)

(** What the metadata frame carries, whenever it is built. *)
Lemma signTxInitialSetupPackage_data input frame :
  signTxInitialSetupPackage input = Ok frame ->
  exists pathData,
    hdPathToBuffer (stx_path input) = Ok pathData
    /\ p1 frame = 0x4D /\ p2 frame = 0 /\ ins frame = DO_SIGN_TX
    /\ data frame
       = Some (pathData
                 ++ Buffer.be_bytes 4 (stx_txByteCount input)
                 ++ Buffer.be_bytes 2 (stx_numberOfInstructions input)
                 ++ match stx_nonNativeTokenRriHRP input with
                    | None => [0]
                    | Some hrp => Z.of_nat (length hrp) :: Buffer.from_utf8 hrp
                    end).
Proof.
  unfold signTxInitialSetupPackage.
  destruct (hdPathToBuffer (stx_path input)) as [pd|]; [|discriminate].
  cbn [bind]. unfold Buffer.writeUInt32BE, Buffer.writeUInt16BE, Buffer.writeUInt8.
  destruct (Buffer.writeUIntBE 4 _ _ _) as [b4|] eqn:E4; [|discriminate].
  cbn [bind].
  destruct (Buffer.writeUIntBE 2 _ _ _) as [b2|] eqn:E2; [|discriminate].
  cbn [bind].
  destruct (255 <? _); [discriminate|].
  destruct (Buffer.writeUIntBE 1 _ _ _) as [b1|] eqn:E1; [|discriminate].
  cbn [bind]. intros [= <-].
  apply writeUIntBE_alloc_inv in E4, E2, E1.
  destruct E4 as [_ ->], E2 as [_ ->], E1 as [H1 ->].
  exists pd. repeat split. cbn [data makeAPDU]. f_equal.
  unfold Buffer.concat. cbn [List.concat]. rewrite !app_nil_r.
  change (2 ^ (8 * Z.of_nat 1)) with 256 in H1.
  rewrite be_bytes_1 by lia.
  destruct (stx_nonNativeTokenRriHRP input); reflexivity.
Qed.

Lemma from_utf8_ascii s : isAscii s -> Buffer.from_utf8 s = s.
Proof.
  induction 1 as [|c s Hc _ IH]; [reflexivity|].
  cbn [Buffer.from_utf8].
  destruct (Z.ltb_spec c 0x80); [|lia]. now rewrite IH.
Qed.

(** For an ASCII prefix the length octet counts the octets that follow. *)
Lemma signTxInitialSetupPackage_hrp_ascii input frame hrp :
  stx_nonNativeTokenRriHRP input = Some hrp ->
  isAscii hrp ->
  signTxInitialSetupPackage input = Ok frame ->
  exists pathData,
    hdPathToBuffer (stx_path input) = Ok pathData
    /\ data frame
       = Some (pathData
                 ++ Buffer.be_bytes 4 (stx_txByteCount input)
                 ++ Buffer.be_bytes 2 (stx_numberOfInstructions input)
                 ++ Z.of_nat (length (Buffer.from_utf8 hrp))
                 :: Buffer.from_utf8 hrp).
Proof.
  intros Hh Ha H. apply signTxInitialSetupPackage_data in H.
  destruct H as (pd & Hp & _ & _ & _ & Hd). exists pd. split; [assumption|].
  rewrite Hd, Hh, from_utf8_ascii by assumption. reflexivity.
Qed.

(** The scenario of the spec: metadata frame, then A with p2 = 0, then B
    with p2 = 1. *)
Lemma signTx_two_instruction_stream :
  exists pathData,
    hdPathToBuffer (radixPath 0 0 0) = Ok pathData
    /\ length pathData = 21%nat
    /\ signTxInitialSetupPackage (scenarioInitial (Buffer.of_string "foo"))
       = Ok {| cla := 0xAA; ins := DO_SIGN_TX; p1 := 0x4D; p2 := 0x00;
               data := Some (pathData ++ [0x00; 0x00; 0x01; 0x00]
                               ++ [0x00; 0x02] ++ [0x03]
                               ++ [0x66; 0x6F; 0x6F]);
               requiredResponseStatusCodeFromDevice := [0x9000] |}
    /\ streamAll [[0x01; 0x02]; [0x03]]
       = [ {| cla := 0xAA; ins := DO_SIGN_TX; p1 := 0x49; p2 := 0x00;
              data := Some [0x01; 0x02];
              requiredResponseStatusCodeFromDevice := [0x9000] |};
           {| cla := 0xAA; ins := DO_SIGN_TX; p1 := 0x49; p2 := 0x01;
              data := Some [0x03];
              requiredResponseStatusCodeFromDevice := [0x9000] |} ].
Proof. eexists. repeat split; reflexivity. Qed.

(** [p2] is 1 on the frame flagged last and 0 on the others. *)
Lemma signTxStream_p2 input :
  p1 (signTxStream input) = 0x49
  /\ p2 (signTxStream input) = (if isLastInstruction input then 0x01 else 0x00)
  /\ data (signTxStream input) = Some (instructionBytes input).
Proof. repeat split. Qed.

Lemma streamAll_frames instructions :
  map data (streamAll instructions) = map Some instructions
  /\ Forall (fun f => p1 f = 0x49) (streamAll instructions)
  /\ map p2 (streamAll instructions)
     = match instructions with
       | [] => []
       | _ :: rest => repeat 0x00 (length rest) ++ [0x01]
       end.
Proof.
  induction instructions as [|i rest (IHd & IHp & IH2)];
    [repeat split; constructor|].
  repeat split.
  - cbn [streamAll map]. now rewrite IHd.
  - constructor; [reflexivity|assumption].
  - cbn [streamAll map]. rewrite IH2.
    destruct rest as [|j rest']; reflexivity.
Qed.

(** C7, where the code departs from the claim: for the prefix "é" (one
    UTF-16 code unit, two UTF-8 octets) the metadata frame carries the
    length octet 1 followed by the two octets C3 A9, so the length octet
    is not the number of UTF-8 octets after it. *)
Theorem signTxInitialSetupPackage_hrp_len_counts_code_units :
  exists pathData frame,
    hdPathToBuffer (radixPath 0 0 0) = Ok pathData
    /\ signTxInitialSetupPackage (scenarioInitial [0xE9]) = Ok frame
    /\ data frame
       = Some (pathData ++ [0x00; 0x00; 0x01; 0x00] ++ [0x00; 0x02]
                 ++ [0x01] ++ [0xC3; 0xA9])
    /\ Buffer.from_utf8 [0xE9] = [0xC3; 0xA9].
Proof. do 2 eexists. repeat split; reflexivity. Qed.

(** *** Frame invariants *)

Ltac frame_simpl :=
  cbn [data makeAPDU cla p1 p2 ins requiredResponseStatusCodeFromDevice
       nullish in_ins in_p1 in_p2 in_data
       in_requiredResponseStatusCodeFromDevice].

(** C9, the claim as stated fails: [signTX.stream] wraps the instruction
    octets as they are, so a 256-octet instruction gives a frame whose
    data exceeds 255 octets. *)
Lemma builders_do_not_bound_data :
  ~ (forall call frame,
        RadixAPDU call = Ok frame ->
        cla frame = 0xAA /\ 0 <= p1 frame <= 255 /\ 0 <= p2 frame <= 255
        /\ (dataLength frame <= 255)%nat
        /\ requiredResponseStatusCodeFromDevice frame = [0x9000]).
Proof.
  intros H.
  specialize (H (CallSignTxStream
                   {| instructionBytes := Buffer.alloc 256;
                      isLastInstruction := true |}) _ eq_refl).
  destruct H as (_ & _ & _ & H & _).
  change (256 <= 255)%nat in H. lia.
Qed.

(** C9, amended: every frame a builder returns has cla = 0xAA, p1 and p2
    in [0, 255], the expected status codes [SW_OK] = 0x9000, and as many
    data octets as its input encodes to ([payloadSize]); so its data is
    at most 255 octets exactly when the input is that small. *)
Theorem builders_frame_invariants call frame :
  RadixAPDU call = Ok frame ->
  cla frame = 0xAA
  /\ 0 <= p1 frame <= 255
  /\ 0 <= p2 frame <= 255
  /\ requiredResponseStatusCodeFromDevice frame = [0x9000]
  /\ dataLength frame = payloadSize call
  /\ ((dataLength frame <= 255)%nat <-> (payloadSize call <= 255)%nat).
Proof.
  intros H.
  assert (G : cla frame = 0xAA /\ 0 <= p1 frame <= 255
              /\ 0 <= p2 frame <= 255
              /\ requiredResponseStatusCodeFromDevice frame = [0x9000]
              /\ dataLength frame = payloadSize call).
  { destruct call as [| |i|i|i|i|i]; cbn [RadixAPDU] in H.
    - injection H as <-. repeat split; cbn; lia.
    - injection H as <-. repeat split; cbn; lia.
    - unfold getPublicKey in H.
      destruct (hdPathToBuffer (gpk_path i)) as [d|] eqn:E; [|discriminate].
      cbn [bind] in H. injection H as <-.
      apply hdPathToBuffer_length in E.
      unfold dataLength, payloadSize, pathSize. frame_simpl.
      repeat split; cbn; try lia;
        destruct (gpk_displayAddress i); cbn; lia.
    - unfold doKeyExchange in H. unfold Buffer.writeUInt8 in H.
      destruct (Buffer.writeUIntBE 1 _ _ _) as [lb|] eqn:El; [|discriminate].
      cbn [bind] in H.
      destruct (hdPathToBuffer (dke_path i)) as [d|] eqn:E; [|discriminate].
      cbn [bind] in H. injection H as <-.
      apply hdPathToBuffer_length in E. apply writeUIntBE_length in El.
      unfold dataLength, payloadSize, pathSize,
        parameterValueForDisplayECDHInputOnLedger.
      frame_simpl.
      unfold Buffer.concat. cbn [List.concat].
      rewrite !length_app, El, E. cbn [Buffer.alloc repeat length].
      repeat split; try reflexivity; try lia;
        destruct (dke_displayBIPAndPubKeyOtherParty i); lia.
    - unfold doSignHash in H.
      destruct (hdPathToBuffer (dsh_path i)) as [d|] eqn:E; [|discriminate].
      cbn [bind] in H. unfold Buffer.writeUInt8 in H.
      destruct (Buffer.writeUIntBE 1 _ _ _) as [lb|] eqn:El; [|discriminate].
      cbn [bind] in H. injection H as <-.
      apply hdPathToBuffer_length in E. apply writeUIntBE_length in El.
      unfold dataLength, payloadSize, pathSize,
        parameterValueForDisplayAddressOnLedger.
      frame_simpl.
      unfold Buffer.concat. cbn [List.concat].
      rewrite !length_app, El, E. cbn [Buffer.alloc repeat length].
      repeat split; try reflexivity; try lia;
        destruct (dsh_displayAddress i); lia.
    - pose proof (signTxInitialSetupPackage_data _ _ H)
        as (pd & Hp & H1 & H2 & _ & Hd).
      apply hdPathToBuffer_length in Hp.
      assert (Hc : cla frame = 0xAA
                   /\ requiredResponseStatusCodeFromDevice frame = [0x9000]).
      { unfold signTxInitialSetupPackage in H.
        repeat match type of H with
               | bind ?r _ = _ => destruct r; cbn [bind] in H; [|discriminate]
               | (if ?b then _ else _) = _ => destruct b; [discriminate|]
               end.
        injection H as <-. split; reflexivity. }
      destruct Hc as [Hc Hs].
      unfold dataLength, payloadSize, pathSize. rewrite Hd, H1, H2.
      rewrite !length_app, !be_bytes_length, Hp.
      repeat split; try assumption; try lia.
      destruct (stx_nonNativeTokenRriHRP i); cbn [length]; lia.
    - injection H as <-. unfold signTxStream, dataLength, payloadSize.
      frame_simpl.
      unfold SINGLE_RADIX_ENGINE_INSTRUCTION_APDU.
      repeat split; try reflexivity; try lia;
        destruct (isLastInstruction i); lia. }
  destruct G as (G1 & G2 & G3 & G4 & G5).
  repeat split; try assumption; try lia; rewrite G5; auto.
Qed.

Lemma builders_frame_invariants_witness :
  let call := CallGetPublicKey {| gpk_path := radixPath 0 0 0;
                                 gpk_displayAddress := false |} in
  exists frame,
    RadixAPDU call = Ok frame
    /\ cla frame = 0xAA /\ p1 frame = 0 /\ p2 frame = 0
    /\ dataLength frame = 21%nat
    /\ (dataLength frame <= 255)%nat.
Proof.
  intros call.
  destruct (RadixAPDU call) as [frame|] eqn:E; [|discriminate E].
  exists frame.
  pose proof (builders_frame_invariants call frame E) as (C & _ & _ & _ & L & B).
  split; [reflexivity|]. split; [exact C|].
  vm_compute in E. injection E as <-.
  repeat split. vm_compute. lia.
Defined.

End APDUFacts.

(** ** The Tokens substate *)

Module TokensFacts.
Import Tokens APDUSpec BufferFacts.

Lemma parse_hex b : forall acc,
  fold_left (fun acc d => acc * 16 + d) (toString_hex b) acc
  = fold_left (fun acc x => acc * 256 + x) b acc.
Proof.
  induction b as [|x b IH]; intros acc; [reflexivity|].
  cbn [toString_hex flat_map app fold_left].
  fold (toString_hex b). rewrite IH. f_equal.
  pose proof (Z.div_mod x 16). lia.
Qed.

Lemma rev_toByteArray_n n v :
  rev (map (fun i => Z.land (Z.shiftr v (8 * Z.of_nat i)) 255) (seq 0 n))
  = Buffer.be_bytes n v.
Proof.
  induction n as [|n IH]; [reflexivity|].
  rewrite seq_S, map_app, rev_app_distr. cbn [map rev app Nat.add].
  now rewrite IH.
Qed.

Lemma from_array_bytes l : Forall ByteVal l -> from_array l = l.
Proof.
  induction 1 as [|x l Hx _ IH]; [reflexivity|].
  cbn [from_array map]. fold (from_array l). rewrite IH, land_255.
  unfold ByteVal, Buffer.isByte in Hx. rewrite Z.mod_small by lia.
  reflexivity.
Qed.

Lemma amountToBuffer_be u : amountToBuffer u = Buffer.be_bytes 32 u.
Proof.
  unfold amountToBuffer. rewrite from_array_bytes.
  - apply rev_toByteArray_n.
  - unfold toByteArray. apply Forall_forall. intros x Hx.
    apply in_map_iff in Hx as (i & <- & _).
    unfold ByteVal, Buffer.isByte. rewrite land_255.
    pose proof (Z.mod_pos_bound (Z.shiftr u (8 * Z.of_nat i)) 256). lia.
Qed.

Lemma UInt256_new_hex b :
  length b = 32%nat -> Forall ByteVal b ->
  UInt256_new (toString_hex b) 16 = be_value b.
Proof.
  intros Hlen Hb. unfold UInt256_new. rewrite parse_hex. fold (be_value b).
  apply Z.mod_small. pose proof (be_value_bound b Hb) as H.
  rewrite Hlen in H. exact H.
Qed.

Lemma amountToBuffer_new b :
  length b = 32%nat -> Forall ByteVal b ->
  amountToBuffer (UInt256_new (toString_hex b) 16) = b.
Proof.
  intros Hlen Hb. rewrite UInt256_new_hex, amountToBuffer_be by assumption.
  rewrite <- Hlen. now apply be_bytes_be_value.
Qed.

Section WithReader.

Variable readFailure : nat -> BufferReaderT -> result Buffer.t * BufferReaderT.

Lemma readNextBuffer_enough n r :
  (n <= length r)%nat ->
  readNextBuffer readFailure n r = (Ok (firstn n r), skipn n r).
Proof.
  intros L. unfold readNextBuffer.
  now replace (n <=? length r)%nat with true by (symmetry; now apply Nat.leb_le).
Qed.

Lemma uint256FromReadBuffer_enough r :
  Forall ByteVal r ->
  (32 <= length r)%nat ->
  uint256FromReadBuffer readFailure r
  = (Ok (be_value (firstn 32 r)), skipn 32 r).
Proof.
  intros B L. unfold uint256FromReadBuffer, uint256ByteCount.
  rewrite readNextBuffer_enough by exact L.
  cbn [result_map]. rewrite UInt256_new_hex; [reflexivity| |].
  - now apply firstn_length_le.
  - rewrite <- (firstn_skipn 32 r) in B. now apply Forall_app in B as [B _].
Qed.

Lemma firstn_skipn_app (b rest : Buffer.t) :
  firstn (length b) (b ++ rest) = b /\ skipn (length b) (b ++ rest) = rest.
Proof.
  split.
  - rewrite firstn_app, Nat.sub_diag, firstn_all. cbn [firstn].
    apply app_nil_r.
  - rewrite skipn_app, Nat.sub_diag, skipn_all. reflexivity.
Qed.

(** Reading 32 octets as a UInt256 and writing it back gives the
    octets. *)
Lemma uint256_roundtrip b rest :
  length b = 32%nat -> Forall ByteVal b ->
  exists u,
    uint256FromReadBuffer readFailure (b ++ rest) = (Ok u, rest)
    /\ amountToBuffer u = b.
Proof.
  intros Hlen Hb. exists (UInt256_new (toString_hex b) 16). split.
  - unfold uint256FromReadBuffer, uint256ByteCount.
    rewrite readNextBuffer_enough by (rewrite length_app; lia).
    destruct (firstn_skipn_app b rest) as [F S]. rewrite Hlen in F, S.
    now rewrite F, S.
  - now apply amountToBuffer_new.
Qed.

Section WithREAddress.

Variable REAddressT : Type.
Variable REAddress_toBuffer : REAddressT -> Buffer.t.
Variable REAddress_fromBufferReader :
  BufferReaderT -> result REAddressT * BufferReaderT.
Variable TOKENS : Z.

(** The reader hands out octets only when enough remain. *)
Hypothesis readFailure_fails : forall n r,
  (length r < n)%nat -> exists e r', readFailure n r = (Throw e, r').

(** What parsing an address consumes is what the address serialises
    to. *)
Hypothesis REAddress_roundtrip : forall r a r',
  REAddress_fromBufferReader r = (Ok a, r') ->
  r = REAddress_toBuffer a ++ r'.

Lemma readNextBuffer_ok n r b r' :
  readNextBuffer readFailure n r = (Ok b, r') -> r = b ++ r' /\ length b = n.
Proof.
  unfold readNextBuffer. destruct (Nat.leb_spec n (length r)) as [L|L].
  - intros [= <- <-]. split; [symmetry; apply firstn_skipn|].
    now apply firstn_length_le.
  - destruct (readFailure_fails n r L) as (e & r0 & E). rewrite E.
    discriminate.
Qed.


End WithREAddress.

End WithReader.


End TokensFacts.

(** ** The transaction pipeline *)

Module PipelineFacts.
Import TransactionTrackingEventType Pipeline PipelineSpec.

(** *** Runs *)

Lemma runFrom_app uc l1 : forall s l2,
  runFrom uc s (l1 ++ l2)
  = let (s1, o1) := runFrom uc s l1 in
    let (s2, o2) := runFrom uc s1 l2 in
    (s2, o1 ++ o2).
Proof.
  induction l1 as [|i l1 IH]; intros s l2; cbn [runFrom app].
  - destruct (runFrom uc s l2). reflexivity.
  - destruct (step uc i s) as [s1 o1]. rewrite IH.
    destruct (runFrom uc s1 l1) as [s2 o2].
    destruct (runFrom uc s2 l2) as [s3 o3]. now rewrite app_assoc.
Qed.

Lemma events_app a b : events (a ++ b) = events a ++ events b.
Proof. unfold events. apply flat_map_app. Qed.

Lemma tags_app a b : tags (a ++ b) = tags a ++ tags b.
Proof. unfold tags. now rewrite events_app, map_app. Qed.

(** *** The check of the signing step *)

Lemma Set_add_In x acc y : In y (Set_add acc x) <-> In y acc \/ y = x.
Proof.
  unfold Set_add. destruct (existsb (String.eqb x) acc) eqn:E.
  - apply existsb_exists in E as (z & Hz & Hxz).
    apply String.eqb_eq in Hxz. subst z. intuition (subst; auto).
  - rewrite in_app_iff. cbn. intuition.
Qed.

Lemma Set_add_NoDup x acc : NoDup acc -> NoDup (Set_add acc x).
Proof.
  intros H. unfold Set_add. destruct (existsb (String.eqb x) acc) eqn:E; auto.
  apply NoDup_app; auto.
  - constructor; [intros []|constructor].
  - intros y Hy [Hxy|[]]. subst y.
    assert (existsb (String.eqb x) acc = true); [|congruence].
    apply existsb_exists. exists x. split; auto. apply String.eqb_refl.
Qed.

Lemma fold_Set_add l : forall acc,
  NoDup acc ->
  NoDup (fold_left Set_add l acc)
  /\ forall y, In y (fold_left Set_add l acc) <-> In y acc \/ In y l.
Proof.
  induction l as [|x l IH]; intros acc H; cbn [fold_left].
  - split; auto. intros y. cbn. tauto.
  - destruct (IH (Set_add acc x) (Set_add_NoDup x acc H)) as [N I].
    split; auto. intros y. rewrite I, Set_add_In. cbn. intuition.
Qed.

Lemma newSet_spec l :
  NoDup (newSet l) /\ forall y, In y (newSet l) <-> In y l.
Proof.
  destruct (fold_Set_add l [] (NoDup_nil _)) as [N I]. split; auto.
  intros y. unfold newSet. rewrite I. cbn. tauto.
Qed.

Lemma transfer_name_listed i t :
  In (IntendedTransferTokens t) (actions i) ->
  name (rri t) <> "xrd"%string ->
  In (name (rri t)) (nonXRDHRPsOfRRIsInTx i).
Proof.
  intros Hin Hx. unfold nonXRDHRPsOfRRIsInTx.
  apply in_map with (f := fun t => name (rri t)).
  apply filter_In. split.
  - apply in_flat_map. exists (IntendedTransferTokens t). split.
    + apply filter_In. split; auto.
    + cbn. auto.
  - apply negb_true_iff, String.eqb_neq, Hx.
Qed.

(** With two distinct non-native names the body of the [mergeMap] returns
    the error, not arguments for [account.sign]. *)
Lemma signUnsignedTx_rejects unsignedTx i :
  multipleNonNativeRRIs i ->
  signUnsignedTx_mergeMap unsignedTx i = inl MultipleNonNativeRRIs.
Proof.
  intros (t1 & t2 & H1 & H2 & X1 & X2 & Hne).
  unfold signUnsignedTx_mergeMap, uniquenonXRDHRPsOfRRIsInTx.
  destruct (newSet_spec (nonXRDHRPsOfRRIsInTx i)) as [N I].
  pose proof (proj2 (I _) (transfer_name_listed i t1 H1 X1)) as I1.
  pose proof (proj2 (I _) (transfer_name_listed i t2 H2 X2)) as I2.
  destruct (newSet (nonXRDHRPsOfRRIsInTx i)) as [|x [|y l]].
  - destruct I1.
  - cbn in I1, I2. intuition congruence.
  - reflexivity.
Qed.

Lemma signUnsignedTx_accepts unsignedTx i :
  signable i ->
  signUnsignedTx_mergeMap unsignedTx i
  = inr (transaction unsignedTx,
         match uniquenonXRDHRPsOfRRIsInTx i with
         | [hrp] => Some hrp
         | _ => None
         end).
Proof.
  unfold signable, signUnsignedTx_mergeMap. intros H.
  destruct (Nat.ltb_spec 1 (length (uniquenonXRDHRPsOfRRIsInTx i)));
    [lia|reflexivity].
Qed.


(** *** The stages of a run with at most one confirmation *)

Lemma noConfirm_mono uc used h c :
  noConfirm uc used h -> noConfirm uc (used || c) h.
Proof.
  intros [H|[H1 H2]]; [left; assumption|right]. subst used. auto.
Qed.

Lemma Quiet_mono uc used c s :
  Quiet uc used s -> Quiet uc (used || c) s.
Proof.
  unfold Quiet. intros (A & B & C & D). repeat split; try tauto.
  now apply noConfirm_mono.
Qed.

Create HintDb stage.
#[local] Hint Resolve noConfirm_mono Quiet_mono : stage.

(** A state that awaits nothing answers no input with an output. *)
Lemma Quiet_step uc used s i :
  Quiet uc used s ->
  (isUserConfirm i = true -> used = false \/ uc = skip) ->
  snd (step uc i s) = [] /\ Quiet uc (used || isUserConfirm i) (fst (step uc i s)).
Proof.
  intros (A & B & C & D & E & F & G & H & I) Hc.
  destruct s as [[ip bf bs cs ho] [ca sw sf] [fa fi sa si] [ts ps pa st ls] c].
  cbn in A, B, C, D, E, F, G, H, I. subst.
  assert (Q0 : forall ts',
    Quiet uc (used || isUserConfirm i)
      {| upstream := {| intentPending := false; buildInFlight := false;
                        builtSlot := bs; confirmSlot := cs;
                        confirmHandedOut := ho |};
         signing := {| chainAlive := ca; signWaiting := 0; signInFlight := [] |};
         downstream := {| finalizeAlive := fa; finalizeInFlight := 0;
                          submitAlive := sa; submitInFlight := 0 |};
         polling := {| tickSeen := ts'; pendingSlot := ps; pollAlive := pa;
                       statusInFlight := 0; lastStatus := ls |};
         completion := c |}).
  { intros ts'. unfold Quiet. cbn. repeat split; auto with stage. }
  destruct i; cbn.
  - split; [reflexivity|apply Q0].
  - split; [reflexivity|apply Q0].
  - destruct ho; [|split; [reflexivity|apply Q0]].
    destruct C as [C|[C1 C2]]; [discriminate|].
    subst. destruct (Hc eq_refl); discriminate.
  - destruct bs; split; try reflexivity; apply Q0.
  - destruct bs; [destruct k|]; split; try reflexivity; apply Q0.
  - split; [reflexivity|apply Q0].
  - split; [reflexivity|apply Q0].
  - destruct pa; [|split; [reflexivity|apply Q0]].
    destruct I as [->|I]; [|discriminate]. cbn.
    split; [reflexivity|apply Q0].
  - split; [reflexivity|apply Q0].
Qed.

Ltac no_confirm :=
  first [ assumption
        | solve [auto with stage]
        | left; reflexivity
        | right; split;
          [reflexivity | first [reflexivity | apply orb_true_r | assumption]] ].

Ltac quiet :=
  unfold Quiet; cbn; repeat split;
  first [ reflexivity | no_confirm | left; reflexivity | right; reflexivity ].

Ltac stage_done :=
  eexists; split; [reflexivity|];
  first [ eapply AtStart | eapply AtBuilding
        | eapply AtAwaiting; solve [auto]
        | eapply AtSignWaiting; solve [no_confirm]
        | eapply AtSigning; solve [no_confirm]
        | eapply AtFinalizing; solve [no_confirm]
        | eapply AtSubmitting; solve [no_confirm]
        | eapply AtPolling; solve [no_confirm]
        | eapply AtRest; [solve [quiet] | solve [auto] ] ].

Ltac second_confirm Hn Hc :=
  exfalso; destruct Hn as [?|[? ?]];
  [discriminate | destruct (Hc eq_refl); congruence].

Ltac stage_input :=
  cbn;
  try match goal with
      | Hn : noConfirm _ _ ?h,
        Hc : isUserConfirm UserConfirm = true -> _ |- _ =>
          destruct h; [second_confirm Hn Hc|cbn]
      end;
  repeat match goal with
         | |- context [signUnsignedTx_mergeMap ?b ?i] =>
             destruct (signUnsignedTx_mergeMap b i) as [?|[? ?]]; cbn
         | |- context [nth_error [] ?k] => destruct k; cbn
         | |- context [nth_error [_] ?k] => destruct k as [|[|?]]; cbn
         | |- context [match ?r with inl _ => _ | inr _ => _ end] =>
             destruct r; cbn
         | |- context [status ?st] => destruct (status st); cbn
         | |- context [TransactionStatus.eqb ?a _] =>
             is_var a; destruct a; cbn
         | |- context [match ?x with _ => _ end] => is_var x; destruct x; cbn
         end;
  try stage_done.

Lemma stage_step uc used s q i :
  Stage uc used s q ->
  (isUserConfirm i = true -> used = false \/ uc = skip) ->
  exists q',
    accept q (tags (snd (step uc i s))) = Some q'
    /\ Stage uc (used || isUserConfirm i) (fst (step uc i s)) q'.
Proof.
  intros St Hc. destruct St as [t|t|t b Hm|t b h Hn|t b h acc Hn|t b h Hn
                                |t b h Hn|b h p Hn|s q Hq Hr].
  - destruct i; stage_input.
  - destruct i; destruct uc; stage_input.
  - subst uc. destruct i; stage_input.
  - destruct i; stage_input.
  - destruct i; stage_input.
  - destruct i; stage_input.
  - destruct i; stage_input.
  - destruct p as [ts ps pa st ls]. destruct i; stage_input.
  - destruct (Quiet_step uc used s i Hq Hc) as [O Q']. rewrite O.
    exists q. split; [destruct Hr; subst; reflexivity|].
    now apply AtRest.
Qed.


Lemma accept_app q a b :
  accept q (a ++ b)
  = match accept q a with
    | Some q' => accept q' b
    | None => None
    end.
Proof.
  revert q. induction a as [|t a IH]; intros q; cbn; [reflexivity|].
  destruct (delta q t); auto.
Qed.

Lemma stage_run uc inputs : forall used s q,
  Stage uc used s q ->
  uc = skip \/ (confirmCalls inputs <= if used then 0 else 1)%nat ->
  exists q', accept q (tags (snd (runFrom uc s inputs))) = Some q'.
Proof.
  induction inputs as [|i inputs IH]; intros used s q St Hb.
  - exists q. reflexivity.
  - assert (Hc : isUserConfirm i = true -> used = false \/ uc = skip).
    { intros Hi. destruct Hb as [->|Hb]; [now right|left].
      unfold confirmCalls in Hb. cbn [filter] in Hb. rewrite Hi in Hb.
      destruct used; [cbn in Hb; lia|reflexivity]. }
    destruct (stage_step uc used s q i St Hc) as (q1 & A1 & St1).
    cbn [runFrom]. destruct (step uc i s) as [s1 o1]. cbn [fst snd] in *.
    assert (Hb1 : uc = skip
                  \/ (confirmCalls inputs
                      <= if used || isUserConfirm i then 0 else 1)%nat).
    { destruct Hb as [->|Hb]; [now left|right].
      unfold confirmCalls in *. cbn [filter] in Hb.
      destruct (isUserConfirm i), used; cbn in *; lia. }
    destruct (IH _ s1 q1 St1 Hb1) as (q2 & A2).
    destruct (runFrom uc s1 inputs) as [s2 o2]. cbn [snd] in *.
    exists q2. now rewrite tags_app, accept_app, A1.
Qed.

(** What the acceptor has accepted is in tracking order. *)
Lemma phasesAt_step q ps t q' :
  phasesAt q ps -> delta q (Phase t) = Some q' -> phasesAt q' (ps ++ [t]).
Proof.
  intros H D. destruct q, t; cbn in D; try discriminate;
    injection D as <-; cbn in H |- *; try (subst ps; reflexivity).
  - subst ps. now exists 0%nat.
  - destruct H as [k ->]. exists (S k). cbn. do 7 f_equal.
    now rewrite <- repeat_cons.
  - destruct H as [k ->]. exists k. reflexivity.
Qed.

Lemma tagsAt_step q ts t q' :
  tagsAt q ts -> delta q t = Some q' -> tagsAt q' (ts ++ [t]).
Proof.
  intros H D. destruct t as [t|t].
  - assert (Hq : q <> QError) by (intros ->; destruct t; discriminate).
    assert (Hq' : q' <> QError).
    { intros ->. destruct q, t; discriminate. }
    assert (H' : exists ps, phasesAt q ps /\ ts = map Phase ps)
      by (destruct q; try exact H; congruence).
    destruct H' as (ps & P & ->).
    assert (G : exists ps', phasesAt q' ps'
                            /\ map Phase ps ++ [Phase t] = map Phase ps').
    { exists (ps ++ [t]). split; [eapply phasesAt_step; eauto|].
      now rewrite map_app. }
    destruct q'; try exact G; congruence.
  - assert (Hq : q <> QError) by (intros ->; discriminate).
    assert (q' = QError) by (destruct q; cbn in D; congruence). subst q'.
    assert (H' : exists ps, phasesAt q ps /\ ts = map Phase ps)
      by (destruct q; try exact H; congruence).
    destruct H' as (ps & P & ->). exists q, ps, t. auto.
Qed.

Lemma accept_tagsAt ts : forall q ts0 q',
  tagsAt q ts0 -> accept q ts = Some q' -> tagsAt q' (ts0 ++ ts).
Proof.
  induction ts as [|t ts IH]; intros q ts0 q' H A; cbn in A.
  - injection A as <-. now rewrite app_nil_r.
  - destruct (delta q t) as [q1|] eqn:D; [|discriminate].
    replace (ts0 ++ t :: ts) with ((ts0 ++ [t]) ++ ts)
      by (now rewrite <- app_assoc).
    eapply IH; eauto using tagsAt_step.
Qed.

Lemma phasesAt_prefix q ps :
  phasesAt q ps -> exists k, prefixOf ps (happyPath true k).
Proof.
  unfold prefixOf.
  destruct q; cbn; intros H; try (subst ps; exists 0%nat; eexists; reflexivity).
  - destruct H as [k ->]. exists k, [COMPLETED]. cbn. do 7 f_equal.
  - destruct H as [k ->]. exists k, []. now rewrite app_nil_r.
  - destruct H.
Qed.

Lemma tagsAt_inTrackingOrder q ts : tagsAt q ts -> inTrackingOrder ts.
Proof.
  intros H. unfold inTrackingOrder.
  destruct q;
    try (destruct H as (ps & P & ->);
         destruct (phasesAt_prefix _ _ P) as [k Hk];
         exists true, k, ps; split; [exact Hk|now left]).
  destruct H as (q0 & ps & t & P & ->).
  destruct (phasesAt_prefix _ _ P) as [k Hk].
  exists true, k, ps. split; [exact Hk|right; now exists t].
Qed.

(** *** Tracking order *)

Lemma map_Phase_inj p q : map Phase p = map Phase q -> p = q.
Proof.
  revert q. induction p as [|x p IH]; intros [|y q] H; cbn in H;
    try discriminate; [reflexivity|].
  injection H as -> H. f_equal. auto.
Qed.

(** C1, the claim as stated fails: when the caller invokes [confirm()]
    twice, CONFIRMED is tracked twice. *)
Lemma second_confirm_breaks_tracking_order :
  ~ inTrackingOrder
      (tags (__makeTransactionFromIntent manual
               [IntentEmitted xrdIntent "alice"%string; BuildResponse (inl builtTx);
                UserConfirm; UserConfirm])).
Proof.
  change (tags _) with
    [Phase INITIATED; Phase BUILT_FROM_INTENT; Phase ASKED_FOR_CONFIRMATION;
     Phase CONFIRMED; Phase CONFIRMED].
  intros (wi & k & p & [rest Hp] & [H|[t H]]).
  - apply (map_Phase_inj [_; _; _; _; _]) in H. subst p.
    destruct wi; cbn in Hp; discriminate.
  - destruct p as [|? [|? [|? [|? [|? [|? ?]]]]]]; cbn in H; discriminate.
Qed.

(** C1, amended: in every run in which [confirm()] is invoked at most
    once, and in every run under ['skip'], the phase tags of the tracking
    events are a contiguous prefix of [INITIATED?, BUILT_FROM_INTENT,
    ASKED_FOR_CONFIRMATION, CONFIRMED, SIGNED, FINALIZED, SUBMITTED,
    UPDATE_OF_STATUS_OF_PENDING_TX*, COMPLETED], possibly ended by one
    error event. *)
Theorem tracking_order uc inputs :
  uc = skip \/ (confirmCalls inputs <= 1)%nat ->
  inTrackingOrder (tags (__makeTransactionFromIntent uc inputs)).
Proof.
  intros Hb.
  destruct (stage_run uc inputs false initial QStart (AtStart uc false false) Hb)
    as (q & A).
  apply (tagsAt_inTrackingOrder q).
  apply (accept_tagsAt _ QStart [] q); [|exact A].
  exists []. split; reflexivity.
Qed.

Lemma tracking_order_witness :
  (confirmCalls (untilPending manual xrdIntent "alice"%string builtTx alice "sig"%string
                   finalizedTx pendingTx
                 ++ [Tick; StatusResponse (inl (statusOf TransactionStatus.CONFIRMED))])
   <= 1)%nat
  /\ inTrackingOrder
       (tags (__makeTransactionFromIntent manual
                (untilPending manual xrdIntent "alice"%string builtTx alice "sig"%string
                   finalizedTx pendingTx
                 ++ [Tick; StatusResponse (inl (statusOf TransactionStatus.CONFIRMED))]))).
Proof.
  assert (H : (confirmCalls
                 (untilPending manual xrdIntent "alice"%string builtTx alice "sig"%string
                    finalizedTx pendingTx
                  ++ [Tick; StatusResponse
                              (inl (statusOf TransactionStatus.CONFIRMED))])
               <= 1)%nat) by (cbn; lia).
  split; [exact H|]. apply tracking_order. right. exact H.
Defined.


(** *** Failures are reported on both outputs *)

Lemma reportedTwice_weaken os : forall seen,
  reportedTwice seen os -> reportedTwice true os.
Proof.
  induction os as [|o os IH]; intros seen H; [exact I|].
  destruct o as [[t st|t e]| | | | | | | | |]; cbn in *; eauto.
  destruct H as [_ H]. split; [now left|assumption].
Qed.

Lemma reportedTwice_app a : forall seen b,
  reportedTwice seen a ->
  reportedTwice (seen || hasErrorEvent a) b ->
  reportedTwice seen (a ++ b).
Proof.
  induction a as [|o a IH]; intros seen b Ha Hb.
  - cbn in *. now rewrite orb_false_r in Hb.
  - destruct o as [[t st|t e]| | | | | | | | |];
      cbn [reportedTwice app hasErrorEvent existsb isErrorEvent orb] in *;
      try (apply IH; assumption).
    destruct Ha as [Hs Ha]. split.
    + destruct Hs as [Hs|[rest' ->]]; [now left|right].
      now exists (rest' ++ b).
    + apply IH; [assumption|].
      rewrite orb_true_r in Hb. cbn. eapply reportedTwice_weaken, Hb.
Qed.

Ltac sound_break :=
  repeat match goal with
         | |- context [signUnsignedTx_mergeMap ?b ?i] =>
             destruct (signUnsignedTx_mergeMap b i) as [?|[? ?]]
         | |- context [nth_error ?l ?k] => destruct (nth_error l k)
         | |- context [match ?x with _ => _ end] => is_var x; destruct x
         end.

Ltac use_facts :=
  repeat match goal with
         | H : ?a = ?a \/ _ -> _ |- _ => specialize (H (or_introl eq_refl))
         | H : _ \/ ?a = ?a -> _ |- _ => specialize (H (or_intror eq_refl))
         | H : ?a = ?a -> _ |- _ => specialize (H eq_refl)
         | H : _ /\ _ |- _ => destruct H
         | H : _ \/ _ |- _ => destruct H
         end.

Lemma sound_step uc seen s i :
  Sound seen s ->
  reportedTwice seen (snd (step uc i s))
  /\ Sound (seen || hasErrorEvent (snd (step uc i s))) (fst (step uc i s)).
Proof.
  destruct s as [[ip bf bs cs ho] [ca sw sf] [fa fi sa si] [ts ps pa st ls] c].
  unfold Sound, Pristine. cbn. intros (J & K & L & M).
  destruct i;
    cbv -[signUnsignedTx_mergeMap nth_error firstn skipn String.append];
    sound_break; use_facts; try discriminate;
    repeat split; intros; use_facts;
    try discriminate; try reflexivity; try assumption;
    try (left; reflexivity); try (right; eexists; reflexivity);
    try (destruct seen; reflexivity); try congruence;
    try solve [intuition congruence];
    try solve [repeat match goal with b : bool |- _ => destruct b end;
               intuition congruence].
Qed.


Lemma hasErrorEvent_app a b :
  hasErrorEvent (a ++ b) = hasErrorEvent a || hasErrorEvent b.
Proof. apply existsb_app. Qed.

Lemma sound_run uc inputs : forall seen s,
  Sound seen s -> reportedTwice seen (snd (runFrom uc s inputs)).
Proof.
  induction inputs as [|i inputs IH]; intros seen s H; [exact I|].
  cbn [runFrom]. destruct (sound_step uc seen s i H) as [R S1].
  destruct (step uc i s) as [s1 o1]. cbn [fst snd] in *.
  specialize (IH _ _ S1).
  destruct (runFrom uc s1 inputs) as [s2 o2]. cbn [snd] in *.
  now apply reportedTwice_app.
Qed.

Lemma initial_sound : Sound false initial.
Proof.
  unfold Sound, Pristine. cbn. intuition congruence.
Qed.

(** Before the intent arrives nothing happens. *)
Lemma startState_stays uc i t :
  isIntentEmitted i = false ->
  exists t', step uc i (startState t) = (startState t', []).
Proof.
  destruct i; intros H; try discriminate H;
    try (exists t; reflexivity).
  exists true. reflexivity.
Qed.

Lemma startState_run uc pre : forall t,
  forallb (fun i => negb (isIntentEmitted i)) pre = true ->
  exists t', runFrom uc (startState t) pre = (startState t', []).
Proof.
  induction pre as [|i pre IH]; intros t H; [now exists t|].
  cbn [forallb] in H. apply andb_true_iff in H as [Hi H].
  apply negb_true_iff in Hi.
  destruct (startState_stays uc i t Hi) as [t1 E1].
  destruct (IH t1 H) as [t2 E2]. exists t2.
  cbn [runFrom]. now rewrite E1, E2.
Qed.

(** While the node builds, nothing else happens. *)
Lemma buildingState_stays uc i t :
  isBuildResponse i = false ->
  exists t', step uc i (buildingState t) = (buildingState t', []).
Proof.
  destruct i; intros H; try discriminate H;
    try (exists t; reflexivity).
  exists true. reflexivity.
Qed.

Lemma buildingState_run uc mid : forall t,
  forallb (fun i => negb (isBuildResponse i)) mid = true ->
  exists t', runFrom uc (buildingState t) mid = (buildingState t', []).
Proof.
  induction mid as [|i mid IH]; intros t H; [now exists t|].
  cbn [forallb] in H. apply andb_true_iff in H as [Hi H].
  apply negb_true_iff in Hi.
  destruct (buildingState_stays uc i t Hi) as [t1 E1].
  destruct (IH t1 H) as [t2 E2]. exists t2.
  cbn [runFrom]. now rewrite E1, E2.
Qed.

(** After a failed build, nothing happens any more. *)
Lemma buildFailedState_stays uc i t :
  exists t', step uc i (buildFailedState t) = (buildFailedState t', []).
Proof.
  destruct i; try (exists t; reflexivity).
  exists true. reflexivity.
Qed.

Lemma buildFailedState_run uc post : forall t,
  exists t', runFrom uc (buildFailedState t) post = (buildFailedState t', []).
Proof.
  induction post as [|i post IH]; intros t; [now exists t|].
  destruct (buildFailedState_stays uc i t) as [t1 E1].
  destruct (IH t1) as [t2 E2]. exists t2.
  cbn [runFrom]. now rewrite E1, E2.
Qed.

Lemma build_failure_run uc pre intent a mid m post :
  forallb (fun i => negb (isIntentEmitted i)) pre = true ->
  forallb (fun i => negb (isBuildResponse i)) mid = true ->
  __makeTransactionFromIntent uc
    (pre ++ [IntentEmitted intent a] ++ mid
       ++ [BuildResponse (inr m)] ++ post)
  = [Track (TransactionStateSuccess INITIATED (OfIntent intent));
     CallBuildTransaction intent a;
     Track (TransactionStateError BUILT_FROM_INTENT (buildTxFromIntentErr m));
     CompletionError (buildTxFromIntentErr m)].
Proof.
  intros Hpre Hmid. unfold __makeTransactionFromIntent.
  destruct (startState_run uc pre false Hpre) as [t1 E1].
  change initial with (startState false).
  rewrite runFrom_app, E1. cbn [app].
  change (IntentEmitted intent a :: mid ++ BuildResponse (inr m) :: post)
    with ([IntentEmitted intent a] ++ mid ++ [BuildResponse (inr m)] ++ post).
  rewrite runFrom_app.
  change (runFrom uc (startState t1) [IntentEmitted intent a])
    with (buildingState t1,
          [Track (TransactionStateSuccess INITIATED (OfIntent intent));
           CallBuildTransaction intent a]).
  destruct (buildingState_run uc mid t1 Hmid) as [t2 E2].
  rewrite runFrom_app, E2, runFrom_app.
  change (runFrom uc (buildingState t2) [BuildResponse (inr m)])
    with (buildFailedState t2,
          [Track (TransactionStateError BUILT_FROM_INTENT
                    (buildTxFromIntentErr m));
           CompletionError (buildTxFromIntentErr m)]).
  destruct (buildFailedState_run uc post t2) as [t3 E3]. rewrite E3.
  reflexivity.
Qed.




(** *** The signing step *)

Lemma untilSigning_run uc intent a b :
  runFrom uc initial (untilSigning uc intent a b)
  = (signingState uc b, outputsUntilSigning uc intent a b).
Proof. destruct uc; reflexivity. Qed.

Lemma Dead_step uc s i :
  Dead s -> snd (step uc i s) = [] /\ Dead (fst (step uc i s)).
Proof.
  destruct s as [[ip bf bs cs ho] [ca sw sf] [fa fi sa si] [ts ps pa st ls] c].
  unfold Dead. cbn. intros (A & B & C & D & E & F & G). subst.
  destruct i; cbn.
  - repeat split; auto.
  - repeat split; auto.
  - destruct ho; cbn; repeat split; auto.
  - destruct bs; [destruct sw|]; cbn; repeat split; auto.
  - destruct bs; [destruct (nth_error sf k)|]; cbn; repeat split; auto.
  - repeat split; auto.
  - repeat split; auto.
  - destruct pa; cbn; [|repeat split; auto].
    destruct G as [->|G]; [|discriminate]. cbn. repeat split; auto.
  - repeat split; auto.
Qed.

Lemma Dead_run uc inputs : forall s,
  Dead s -> snd (runFrom uc s inputs) = [].
Proof.
  induction inputs as [|i inputs IH]; intros s H; [reflexivity|].
  cbn [runFrom]. destruct (Dead_step uc s i H) as [O D].
  destruct (step uc i s) as [s1 o1]. cbn [fst snd] in *. subst o1.
  specialize (IH s1 D). destruct (runFrom uc s1 inputs) as [s2 o2].
  cbn [snd] in *. now subst.
Qed.

Lemma multiple_rris_run uc intent a b acc post :
  multipleNonNativeRRIs intent ->
  __makeTransactionFromIntent uc
    (untilSigning uc intent a b ++ [SignInputs intent acc] ++ post)
  = outputsUntilSigning uc intent a b
      ++ [Track (TransactionStateError FINALIZED MultipleNonNativeRRIs);
          CompletionError MultipleNonNativeRRIs].
Proof.
  intros Hm. unfold __makeTransactionFromIntent.
  rewrite runFrom_app, untilSigning_run, runFrom_app.
  assert (E : runFrom uc (signingState uc b) [SignInputs intent acc]
              = (fst (signedTransaction_error MultipleNonNativeRRIs
                        (signingState uc b)),
                 [Track (TransactionStateError FINALIZED MultipleNonNativeRRIs);
                  CompletionError MultipleNonNativeRRIs])).
  { cbn. rewrite (signUnsignedTx_rejects b intent Hm). reflexivity. }
  rewrite E.
  assert (D : Dead (fst (signedTransaction_error MultipleNonNativeRRIs
                           (signingState uc b)))).
  { unfold Dead. cbn. repeat split; auto. }
  pose proof (Dead_run uc post _ D) as R.
  destruct (runFrom uc _ post) as [s3 o3]. cbn [snd] in *. subst o3.
  now rewrite app_nil_r.
Qed.

Lemma fooBar_multiple : multipleNonNativeRRIs fooBarIntent.
Proof.
  exists {| rri := {| name := "foo" |} |}, {| rri := {| name := "bar" |} |}.
  cbn. repeat split; auto; discriminate.
Qed.

(** C3, the claim as stated fails: when the rejection of an intent with
    the two resources foo and bar is raised, the node has already been
    called to build the transaction. *)
Lemma multiple_rris_rejected_after_build_call :
  ~ (forall uc inputs before t after,
        __makeTransactionFromIntent uc inputs
        = before ++ Track (TransactionStateError t MultipleNonNativeRRIs)
                 :: after ->
        existsb isCall before = false).
Proof.
  intros H.
  specialize (H skip
                [IntentEmitted fooBarIntent "alice"%string;
                 BuildResponse (inl builtTx); SignInputs fooBarIntent alice]
                [Track (TransactionStateSuccess INITIATED (OfIntent fooBarIntent));
                 CallBuildTransaction fooBarIntent "alice"%string;
                 Track (TransactionStateSuccess BUILT_FROM_INTENT (OfBuilt builtTx));
                 Track (TransactionStateSuccess ASKED_FOR_CONFIRMATION
                          (OfBuilt builtTx));
                 Track (TransactionStateSuccess CONFIRMED (OfBuilt builtTx))]
                FINALIZED [CompletionError MultipleNonNativeRRIs] eq_refl).
  discriminate H.
Qed.

(** C3, amended: for every intent whose transfers name two or more
    distinct non-native resources, the signing step fails with the
    MultipleNonNativeRRIs error instead of calling [account.sign]; in the
    run, the only call made is the one that built the transaction, before
    signing started: no signing, finalizing, submitting or status call is
    made, then or later. *)
Theorem multiple_rris_rejected_before_signing uc intent a b acc post :
  multipleNonNativeRRIs intent ->
  signUnsignedTx_mergeMap b intent = inl MultipleNonNativeRRIs
  /\ __makeTransactionFromIntent uc
       (untilSigning uc intent a b ++ [SignInputs intent acc] ++ post)
     = outputsUntilSigning uc intent a b
         ++ [Track (TransactionStateError FINALIZED MultipleNonNativeRRIs);
             CompletionError MultipleNonNativeRRIs]
  /\ filter isCall
       (__makeTransactionFromIntent uc
          (untilSigning uc intent a b ++ [SignInputs intent acc] ++ post))
     = [CallBuildTransaction intent a].
Proof.
  intros Hm. split; [now apply signUnsignedTx_rejects|].
  rewrite multiple_rris_run by assumption. split; [reflexivity|].
  destruct uc; reflexivity.
Qed.

Lemma multiple_rris_rejected_before_signing_witness :
  multipleNonNativeRRIs fooBarIntent
  /\ filter isCall
       (__makeTransactionFromIntent manual
          (untilSigning manual fooBarIntent "alice"%string builtTx
             ++ [SignInputs fooBarIntent alice] ++ [Tick; UserConfirm]))
     = [CallBuildTransaction fooBarIntent "alice"%string].
Proof.
  split; [exact fooBar_multiple|].
  exact (proj2 (proj2 (multiple_rris_rejected_before_signing manual
                         fooBarIntent "alice"%string builtTx alice
                         [Tick; UserConfirm] fooBar_multiple))).
Defined.

(** C4, where the code departs from the claim: an error of the signing
    step (here the rejection of the two resources foo and bar, and a
    failure of the signing device) reaches the [catchError] of
    [finalizedTx$] and is tracked in phase FINALIZED, the tag of the next
    stage, not in the phase of signing. *)
Theorem signing_errors_are_tagged_FINALIZED :
  events (__makeTransactionFromIntent skip
            [IntentEmitted fooBarIntent "alice"%string;
             BuildResponse (inl builtTx); SignInputs fooBarIntent alice])
  = [TransactionStateSuccess INITIATED (OfIntent fooBarIntent);
     TransactionStateSuccess BUILT_FROM_INTENT (OfBuilt builtTx);
     TransactionStateSuccess ASKED_FOR_CONFIRMATION (OfBuilt builtTx);
     TransactionStateSuccess CONFIRMED (OfBuilt builtTx);
     TransactionStateError FINALIZED MultipleNonNativeRRIs]
  /\ events (__makeTransactionFromIntent skip
               [IntentEmitted xrdIntent "alice"%string;
                BuildResponse (inl builtTx); SignInputs xrdIntent alice;
                SignResponse 0 (inr (Error "device refused"))])
     = [TransactionStateSuccess INITIATED (OfIntent xrdIntent);
        TransactionStateSuccess BUILT_FROM_INTENT (OfBuilt builtTx);
        TransactionStateSuccess ASKED_FOR_CONFIRMATION (OfBuilt builtTx);
        TransactionStateSuccess CONFIRMED (OfBuilt builtTx);
        TransactionStateError FINALIZED (Thrown (Error "device refused"))].
Proof. split; reflexivity. Qed.

(** The stages that catch their own errors tag them with their own
    phase. *)
Lemma other_stage_errors_keep_their_phase :
  events (__makeTransactionFromIntent skip
            [IntentEmitted xrdIntent "alice"%string;
             BuildResponse (inl builtTx); SignInputs xrdIntent alice;
             SignResponse 0 (inl "sig"%string);
             FinalizeResponse (inr "rejected"%string)])
  = [TransactionStateSuccess INITIATED (OfIntent xrdIntent);
     TransactionStateSuccess BUILT_FROM_INTENT (OfBuilt builtTx);
     TransactionStateSuccess ASKED_FOR_CONFIRMATION (OfBuilt builtTx);
     TransactionStateSuccess CONFIRMED (OfBuilt builtTx);
     TransactionStateSuccess SIGNED (OfSigned (signedBy builtTx alice "sig"%string));
     TransactionStateError FINALIZED (finalizeTxErr "rejected")]
  /\ events (__makeTransactionFromIntent skip
               [IntentEmitted xrdIntent "alice"%string;
                BuildResponse (inl builtTx); SignInputs xrdIntent alice;
                SignResponse 0 (inl "sig"%string);
                FinalizeResponse (inl finalizedTx);
                SubmitResponse (inr "rejected"%string)])
     = [TransactionStateSuccess INITIATED (OfIntent xrdIntent);
        TransactionStateSuccess BUILT_FROM_INTENT (OfBuilt builtTx);
        TransactionStateSuccess ASKED_FOR_CONFIRMATION (OfBuilt builtTx);
        TransactionStateSuccess CONFIRMED (OfBuilt builtTx);
        TransactionStateSuccess SIGNED (OfSigned (signedBy builtTx alice "sig"%string));
        TransactionStateSuccess FINALIZED (OfFinalized finalizedTx);
        TransactionStateError SUBMITTED (submitSignedTxErr "rejected")].
Proof. split; reflexivity. Qed.


(** *** The confirmation rendezvous *)

Lemma confirm_step ip bf b cs sw sf d p c :
  step manual UserConfirm
    {| upstream := {| intentPending := ip; buildInFlight := bf;
                      builtSlot := Some b; confirmSlot := cs;
                      confirmHandedOut := true |};
       signing := {| chainAlive := true; signWaiting := sw;
                     signInFlight := sf |};
       downstream := d; polling := p; completion := c |}
  = ({| upstream := {| intentPending := ip; buildInFlight := bf;
                       builtSlot := Some b; confirmSlot := true;
                       confirmHandedOut := true |};
        signing := {| chainAlive := true; signWaiting := S sw;
                      signInFlight := sf |};
        downstream := d; polling := p; completion := c |},
     [Track (TransactionStateSuccess CONFIRMED (OfBuilt b))]).
Proof. reflexivity. Qed.

Lemma confirms_run n : forall ip bf b cs sw sf d p c,
  runFrom manual
    {| upstream := {| intentPending := ip; buildInFlight := bf;
                      builtSlot := Some b; confirmSlot := cs;
                      confirmHandedOut := true |};
       signing := {| chainAlive := true; signWaiting := sw;
                     signInFlight := sf |};
       downstream := d; polling := p; completion := c |}
    (repeat UserConfirm n)
  = ({| upstream := {| intentPending := ip; buildInFlight := bf;
                       builtSlot := Some b;
                       confirmSlot := match n with O => cs | S _ => true end;
                       confirmHandedOut := true |};
        signing := {| chainAlive := true; signWaiting := sw + n;
                      signInFlight := sf |};
        downstream := d; polling := p; completion := c |},
     repeat (Track (TransactionStateSuccess CONFIRMED (OfBuilt b))) n).
Proof.
  induction n as [|n IH]; intros ip bf b cs sw sf d p c.
  - cbn [repeat runFrom]. now rewrite Nat.add_0_r.
  - cbn [repeat runFrom]. rewrite confirm_step, IH. cbn [app].
    replace (S sw + n)%nat with (sw + S n)%nat by lia.
    destruct n; reflexivity.
Qed.

Lemma sign_inputs_run uc intent acc n : forall u b sw sf d p c,
  signable intent ->
  builtSlot u = Some b ->
  snd (runFrom uc
         {| upstream := u;
            signing := {| chainAlive := true; signWaiting := n + sw;
                          signInFlight := sf |};
            downstream := d; polling := p; completion := c |}
         (repeat (SignInputs intent acc) n))
  = repeat (CallSign (transaction b) (hrpOf intent)) n.
Proof.
  induction n as [|n IH]; intros u b sw sf d p c Hs Hb; [reflexivity|].
  cbn [repeat runFrom]. cbn [step upstream signing signWaiting Nat.add].
  rewrite Hb. cbn [chainAlive signInFlight].
  rewrite (signUnsignedTx_accepts b intent Hs). fold (hrpOf intent).
  cbn [with_signing upstream downstream polling completion].
  specialize (IH u b sw (sf ++ [acc]) d p c Hs Hb).
  destruct (runFrom uc _ (repeat (SignInputs intent acc) n)) as [s2 o2].
  cbn [snd app] in *. now rewrite IH.
Qed.

Lemma events_repeat_call tx hrp n : events (repeat (CallSign tx hrp) n) = [].
Proof. induction n; cbn; auto. Qed.

Lemma events_repeat_track e n : events (repeat (Track e) n) = repeat e n.
Proof. induction n; cbn; [reflexivity|]. now f_equal. Qed.

Lemma filter_isCallSign_track e n :
  filter isCallSign (repeat (Track e) n) = [].
Proof. induction n; cbn; auto. Qed.

Lemma filter_isCallSign_calls tx hrp n :
  filter isCallSign (repeat (CallSign tx hrp) n) = repeat (CallSign tx hrp) n.
Proof. induction n; cbn; [reflexivity|]. now f_equal. Qed.





(** *** Polling the status *)

Lemma statusUpdates_app a b :
  statusUpdates (a ++ b) = statusUpdates a ++ statusUpdates b.
Proof. unfold statusUpdates. apply flat_map_app. Qed.

Lemma pollingSchedule_inputs evs : forall n,
  pollingSchedule n evs -> forallb isPollingInput evs = true.
Proof.
  induction evs as [|i evs IH]; intros n H; [reflexivity|].
  destruct i as [| | | | | | | |[st|m]]; cbn in H; try contradiction; cbn.
  - eauto.
  - destruct n; [contradiction|eauto].
Qed.

(** Once the polling loop has ended, ticks and answers are ignored. *)
Lemma ended_polling_run uc evs : forall s,
  pollAlive (polling s) = false ->
  forallb isPollingInput evs = true ->
  snd (runFrom uc s evs) = [].
Proof.
  induction evs as [|i evs IH]; intros s Hp Hi; [reflexivity|].
  cbn [forallb] in Hi. apply andb_true_iff in Hi as [Hi Hr].
  assert (E : step uc i s = (s, [])).
  { destruct i; try discriminate Hi; cbn; rewrite Hp.
    - reflexivity.
    - destruct (statusInFlight (polling s)); reflexivity. }
  cbn [runFrom]. rewrite E. specialize (IH s Hp Hr).
  destruct (runFrom uc s evs) as [s2 o2]. cbn [snd] in *. now subst.
Qed.

Lemma runFrom_cons uc s i evs :
  snd (runFrom uc s (i :: evs))
  = snd (step uc i s) ++ snd (runFrom uc (fst (step uc i s)) evs).
Proof.
  cbn [runFrom]. destruct (step uc i s) as [s1 o1]. cbn [fst snd].
  destruct (runFrom uc s1 evs) as [s2 o2]. reflexivity.
Qed.

(** What an answer that is let through does, by its status. *)
Lemma transactionStatus_next_updates sot s :
  statusUpdates (snd (transactionStatus_next sot s)) = [sot]
  /\ (isTerminal sot = true ->
      pollAlive (polling (fst (transactionStatus_next sot s))) = false)
  /\ (isTerminal sot = false ->
      polling (fst (transactionStatus_next sot s)) = polling s).
Proof.
  unfold transactionStatus_next, isTerminal.
  destruct s as [u g d p c]. destruct (status sot); destruct c; cbn;
    repeat split; intros; try reflexivity; discriminate.
Qed.

Lemma poll_run uc evs : forall s n l,
  Polls s n l ->
  pollingSchedule n evs ->
  whilePolling (answers evs) ->
  statusUpdates (snd (runFrom uc s evs)) = removeRepeats l (answers evs).
Proof.
  induction evs as [|i evs IH]; intros s n l P Hs Hw; [reflexivity|].
  destruct s as [u g d [ts ps pa st ls] c].
  destruct P as (Pa & Pp & Pn & Pl). cbn in Pa, Pp, Pn, Pl. subst pa st ls.
  destruct ps as [pend|]; [clear Pp|congruence].
  rewrite runFrom_cons, statusUpdates_app.
  destruct i as [| | | | | | | |[sot|m]]; cbn in Hs; try contradiction.
  - (* Tick *)
    cbn [step polling pollAlive pendingSlot fst snd].
    cbn [statusUpdates flat_map app answers].
    apply (IH _ (S n) l); auto.
    unfold Polls. cbn. repeat split; congruence.
  - (* an answer *)
    destruct n as [|n]; [contradiction|].
    cbn [answers flat_map app] in Hw |- *. fold (answers evs) in Hw |- *.
    cbn [whilePolling] in Hw. destruct Hw as [Hterm Hw].
    cbn [step polling pollAlive statusInFlight lastStatus tickSeen pendingSlot].
    cbn [removeRepeats].
    set (same := match l with
                 | Some q => TransactionStatus.eqb q (status sot)
                 | None => false
                 end).
    assert (Hsame : match l with
                    | Some prev => negb (TransactionStatus.eqb prev (status sot))
                    | None => true
                    end = negb same) by (subst same; destruct l; reflexivity).
    rewrite Hsame. destruct same; cbn [negb].
    + (* suppressed *)
      cbn [fst snd statusUpdates flat_map app].
      apply (IH _ n l); auto. unfold Polls. cbn. repeat split; congruence.
    + (* let through *)
      match goal with
      | |- context [transactionStatus_next sot ?s1] =>
          destruct (transactionStatus_next_updates sot s1) as (U & T & N)
      end.
      rewrite U. cbn [app]. f_equal.
      destruct (isTerminal sot) eqn:Et.
      * rewrite (Hterm eq_refl) in *. cbn [removeRepeats].
        specialize (T eq_refl).
        apply ended_polling_run with (uc := uc) (evs := evs) in T;
          [|eapply pollingSchedule_inputs; eauto].
        now rewrite T.
      * apply (IH _ n (Some (status sot))); auto.
        unfold Polls. rewrite (N eq_refl). cbn. repeat split; congruence.
Qed.

Lemma untilPending_run uc intent a b acc sig f p :
  signable intent ->
  exists s os,
    runFrom uc initial (untilPending uc intent a b acc sig f p) = (s, os)
    /\ Polls s 0 None
    /\ statusUpdates os = [].
Proof.
  intros Hs. unfold untilPending.
  rewrite runFrom_app, untilSigning_run.
  cbn [runFrom step signingState upstream signing confirmedUpstream builtSlot
       signWaiting chainAlive].
  rewrite (signUnsignedTx_accepts b intent Hs).
  destruct uc; cbn; do 2 eexists; (split; [reflexivity|]);
    unfold Polls; cbn; repeat split; congruence.
Qed.



(** A failing call of [api.transactionStatus] is logged only: it makes
    no tracking event and leaves the completion output as it is, and the
    polling loop has ended. *)
Lemma failed_status_call_is_only_logged uc s m :
  snd (step uc (StatusResponse (inr m)) s) = []
  /\ completion (fst (step uc (StatusResponse (inr m)) s)) = completion s
  /\ (pollAlive (polling s) = true ->
      statusInFlight (polling s) <> 0%nat ->
      pollAlive (polling (fst (step uc (StatusResponse (inr m)) s))) = false).
Proof.
  destruct s as [u g d [ts ps pa st ls] c]. cbn.
  destruct st, pa; cbn; repeat split; intros; congruence.
Qed.

(** An answer that arrives after the loop has ended is dropped. *)
Lemma late_answer_is_dropped :
  statusUpdates
    (__makeTransactionFromIntent skip
       (untilPending skip xrdIntent "alice"%string builtTx alice
          "sig"%string finalizedTx pendingTx
        ++ [Tick; Tick;
            StatusResponse (inl (statusOf TransactionStatus.CONFIRMED));
            StatusResponse (inl (statusOf TransactionStatus.PENDING))]))
  = [statusOf TransactionStatus.CONFIRMED].
Proof. reflexivity. Qed.

End PipelineFacts.

(** ** Further properties of the APDU codec *)

Module APDUMoreFacts.
Import HDPath APDU APDUSpec APDUMoreSpec PathEncodingSpec BufferFacts APDUFacts.

Lemma writeUIntBE_alloc_fits w v :
  Buffer.writeUIntBE w (Buffer.alloc w) v 0
  = if fits (8 * Z.of_nat w) v then Ok (Buffer.be_bytes w v)
    else Throw RangeError.
Proof.
  unfold fits.
  destruct ((0 <=? v) && (v <? 2 ^ (8 * Z.of_nat w))) eqn:E.
  - apply andb_true_iff in E as [A B].
    apply writeUIntBE_alloc. apply Z.leb_le in A. apply Z.ltb_lt in B. lia.
  - unfold Buffer.writeUIntBE. now rewrite E.
Qed.

Lemma writeUInt8_length n :
  Buffer.writeUInt8 (Buffer.alloc 1) (Z.of_nat n) 0
  = if (n <=? 255)%nat then Ok [Z.of_nat n] else Throw RangeError.
Proof.
  unfold Buffer.writeUInt8. rewrite writeUIntBE_alloc_fits. unfold fits.
  change (2 ^ (8 * Z.of_nat 1)) with 256.
  destruct (Nat.leb_spec n 255).
  - replace (0 <=? Z.of_nat n) with true by (symmetry; apply Z.leb_le; lia).
    replace (Z.of_nat n <? 256) with true by (symmetry; apply Z.ltb_lt; lia).
    cbn [andb]. now rewrite be_bytes_1 by lia.
  - replace (Z.of_nat n <? 256) with false by (symmetry; apply Z.ltb_ge; lia).
    now rewrite andb_false_r.
Qed.

Lemma foreign_path_rejected p :
  foreignCoinType p -> hdPathToBuffer p = Throw coinTypeError.
Proof. apply hdPathToBuffer_rejects. Qed.

(** X1: every builder that takes a path refuses a path whose coin type is
    not 536 hardened, with the error of the path encoder and whatever its
    other inputs are; only doKeyExchange looks at the length of the public
    key first. *)
Theorem builders_check_the_path_first p :
  foreignCoinType p ->
  (forall d,
      getPublicKey {| gpk_path := p; gpk_displayAddress := d |}
      = Throw coinTypeError)
  /\ (forall d h,
         doSignHash {| dsh_path := p; dsh_displayAddress := d;
                       dsh_hashToSign := h |}
         = Throw coinTypeError)
  /\ (forall n hrp k,
         signTxInitialSetupPackage
           {| stx_path := p; stx_txByteCount := n;
              stx_nonNativeTokenRriHRP := hrp;
              stx_numberOfInstructions := k |}
         = Throw coinTypeError)
  /\ (forall pk d,
         doKeyExchange {| dke_path := p; dke_publicKeyOfOtherParty := pk;
                          dke_displayBIPAndPubKeyOtherParty := d |}
         = if (length (asData pk false) <=? 255)%nat
           then Throw coinTypeError else Throw RangeError).
Proof.
  intros H. pose proof (foreign_path_rejected p H) as E. repeat split; intros.
  - unfold getPublicKey. cbn [gpk_path]. now rewrite E.
  - unfold doSignHash. cbn [dsh_path]. now rewrite E.
  - unfold signTxInitialSetupPackage. cbn [stx_path]. now rewrite E.
  - unfold doKeyExchange. cbn [dke_path dke_publicKeyOfOtherParty].
    rewrite writeUInt8_length.
    destruct (length (asData pk false) <=? 255)%nat; cbn [bind];
      [now rewrite E|reflexivity].
Qed.

Lemma builders_check_the_path_first_witness :
  let p := {| pathComponents := pathComponents (radixPath 0 0 0);
              coinType := component 0 true |} in
  foreignCoinType p
  /\ getPublicKey {| gpk_path := p; gpk_displayAddress := true |}
     = Throw coinTypeError.
Proof.
  intros p.
  assert (F : foreignCoinType p) by (left; cbn; discriminate).
  split; [exact F|].
  exact (proj1 (builders_check_the_path_first p F) true).
Defined.

Lemma app_same_length {A} (a a' b b' : list A) :
  length a = length a' -> a ++ b = a' ++ b' -> a = a' /\ b = b'.
Proof.
  revert a'. induction a as [|x a IH]; intros [|y a'] L H; cbn in *;
    try discriminate; [auto|].
  injection H as -> H. injection L as L.
  destruct (IH a' L H) as [-> ->]. auto.
Qed.

Lemma wf_component_by_index c c' :
  wf c -> wf c' -> index c = index c' -> c = c'.
Proof.
  destruct c as [i h], c' as [i' h']. unfold wf, value, hardener. cbn.
  intros W W' ->. destruct h, h'; try reflexivity; lia.
Qed.

Lemma words_injective l : forall l',
  Forall wf l -> Forall wf l' ->
  length l = length l' ->
  flat_map (fun c => Buffer.be_bytes 4 (word c)) l
  = flat_map (fun c => Buffer.be_bytes 4 (word c)) l' ->
  l = l'.
Proof.
  induction l as [|c l IH]; intros [|c' l'] W W' L H; cbn in L;
    try discriminate; [reflexivity|].
  inversion W as [|? ? Wc Wl]; inversion W' as [|? ? Wc' Wl']; subst.
  cbn [flat_map] in H.
  apply app_same_length in H as [Hc Hl];
    [|now rewrite !be_bytes_length].
  f_equal; [|apply IH; auto].
  apply wf_component_by_index; auto.
  rewrite <- (word_index c Wc), <- (word_index c' Wc').
  rewrite <- (be_value_be_bytes 4 (word c)), <- (be_value_be_bytes 4 (word c')).
  - now rewrite Hc.
  - rewrite word_index by assumption. change (8 * Z.of_nat 4) with 32.
    now apply wf_index_range.
  - rewrite word_index by assumption. change (8 * Z.of_nat 4) with 32.
    now apply wf_index_range.
Qed.

Lemma Ok_inj {A : Type} (a b : A) : Ok a = Ok b -> a = b.
Proof. intros H. now inversion H. Qed.

(** X2: the path encoding is injective: two Radix paths of well-formed
    components (at most 255 each) with the same encoding have the same
    components. *)
Theorem hdPathToBuffer_injective p q :
  radixCoinType p -> radixCoinType q ->
  Forall wf (pathComponents p) -> Forall wf (pathComponents q) ->
  (length (pathComponents p) <= 255)%nat ->
  (length (pathComponents q) <= 255)%nat ->
  hdPathToBuffer p = hdPathToBuffer q ->
  pathComponents p = pathComponents q.
Proof.
  intros Cp Cq Wp Wq Lp Lq H.
  rewrite (hdPathToBuffer_spec p Cp Wp Lp), (hdPathToBuffer_spec q Cq Wq Lq) in H.
  apply Ok_inj in H.
  pose proof (f_equal (hd 0) H) as Hn. pose proof (f_equal (@tl Z) H) as Hw.
  cbn [hd tl] in Hn, Hw. apply Nat2Z.inj in Hn.
  now apply words_injective.
Qed.

Lemma hdPathToBuffer_injective_witness :
  hdPathToBuffer (radixPath 1 0 7) = hdPathToBuffer (radixPath 1 0 7)
  /\ pathComponents (radixPath 1 0 7) = pathComponents (radixPath 1 0 7).
Proof.
  split; [reflexivity|].
  assert (C : radixCoinType (radixPath 1 0 7)) by (split; reflexivity).
  assert (W : Forall wf (pathComponents (radixPath 1 0 7))).
  { repeat constructor; vm_compute; congruence. }
  assert (L : (length (pathComponents (radixPath 1 0 7)) <= 255)%nat)
    by (cbn; lia).
  exact (hdPathToBuffer_injective _ _ C C W W L L eq_refl).
Defined.

(** X3: for a path that encodes, doSignHash returns the frame
    DO_SIGN_HASH with p1 = 1 exactly when the address is to be displayed
    and data = path, one octet holding the number of hash octets, hash;
    a hash of more than 255 octets makes it throw a RangeError. *)
Theorem doSignHash_frame input pathData :
  hdPathToBuffer (dsh_path input) = Ok pathData ->
  doSignHash input
  = if (length (dsh_hashToSign input) <=? 255)%nat
    then Ok (frame DO_SIGN_HASH
               (if dsh_displayAddress input then 1 else 0) 0
               (pathData ++ Z.of_nat (length (dsh_hashToSign input))
                          :: dsh_hashToSign input))
    else Throw RangeError.
Proof.
  intros E. unfold doSignHash. rewrite E. cbn [bind].
  rewrite writeUInt8_length.
  destruct (length (dsh_hashToSign input) <=? 255)%nat; [|reflexivity].
  cbn [bind]. unfold Buffer.concat. cbn [List.concat app].
  now rewrite !app_nil_r.
Qed.

Lemma doSignHash_frame_witness :
  exists pathData,
    hdPathToBuffer (radixPath 0 0 0) = Ok pathData
    /\ doSignHash {| dsh_path := radixPath 0 0 0; dsh_displayAddress := true;
                     dsh_hashToSign := Buffer.alloc 256 |}
       = Throw RangeError.
Proof.
  destruct (hdPathToBuffer (radixPath 0 0 0)) as [pd|] eqn:E;
    [|discriminate E].
  exists pd. split; [reflexivity|].
  exact (doSignHash_frame
           {| dsh_path := radixPath 0 0 0; dsh_displayAddress := true;
              dsh_hashToSign := Buffer.alloc 256 |} pd E).
Defined.

(** X4: for a path that encodes, doKeyExchange returns the frame
    DO_KEY_EXCHANGE with p1 = 1 exactly when the input is to be displayed
    and data = path, one octet holding the number of octets of the
    uncompressed public key, key; a key of more than 255 octets makes it
    throw a RangeError. *)
Theorem doKeyExchange_frame input pathData :
  hdPathToBuffer (dke_path input) = Ok pathData ->
  let pk := asData (dke_publicKeyOfOtherParty input) false in
  doKeyExchange input
  = if (length pk <=? 255)%nat
    then Ok (frame DO_KEY_EXCHANGE
               (if dke_displayBIPAndPubKeyOtherParty input then 1 else 0) 0
               (pathData ++ Z.of_nat (length pk) :: pk))
    else Throw RangeError.
Proof.
  intros E pk. subst pk. unfold doKeyExchange.
  rewrite writeUInt8_length.
  destruct (length (asData (dke_publicKeyOfOtherParty input) false) <=? 255)%nat;
    [|reflexivity].
  cbn [bind]. rewrite E. cbn [bind]. unfold Buffer.concat.
  cbn [List.concat app]. now rewrite !app_nil_r.
Qed.

Lemma doKeyExchange_frame_witness :
  exists pathData,
    hdPathToBuffer (radixPath 0 0 0) = Ok pathData
    /\ doKeyExchange
         {| dke_path := radixPath 0 0 0;
            dke_publicKeyOfOtherParty := {| asData := fun _ => [0x04; 0x01] |};
            dke_displayBIPAndPubKeyOtherParty := false |}
       = Ok (frame DO_KEY_EXCHANGE 0 0 (pathData ++ [0x02; 0x04; 0x01])).
Proof.
  destruct (hdPathToBuffer (radixPath 0 0 0)) as [pd|] eqn:E;
    [|discriminate E].
  exists pd. split; [reflexivity|].
  exact (doKeyExchange_frame
           {| dke_path := radixPath 0 0 0;
              dke_publicKeyOfOtherParty := {| asData := fun _ => [0x04; 0x01] |};
              dke_displayBIPAndPubKeyOtherParty := false |} pd E).
Defined.

(** X5: for a path that encodes, the metadata frame of SIGN_TX is built
    exactly when the byte count fits 32 bits, the instruction count fits
    16 bits and the prefix has at most 255 code units; the checks are made
    in this order, the first two throwing a RangeError and the third the
    error of the builder. An absent prefix is written as the single
    octet 0. *)
Theorem signTxInitialSetupPackage_checks input pathData :
  hdPathToBuffer (stx_path input) = Ok pathData ->
  signTxInitialSetupPackage input
  = if negb (fits 32 (stx_txByteCount input)) then Throw RangeError
    else if negb (fits 16 (stx_numberOfInstructions input))
    then Throw RangeError
    else
      match stx_nonNativeTokenRriHRP input with
      | None =>
          Ok (frame DO_SIGN_TX 0x4D 0
                (pathData ++ Buffer.be_bytes 4 (stx_txByteCount input)
                   ++ Buffer.be_bytes 2 (stx_numberOfInstructions input)
                   ++ [0]))
      | Some hrp =>
          if (length hrp <=? 255)%nat
          then Ok (frame DO_SIGN_TX 0x4D 0
                     (pathData ++ Buffer.be_bytes 4 (stx_txByteCount input)
                        ++ Buffer.be_bytes 2 (stx_numberOfInstructions input)
                        ++ Z.of_nat (length hrp) :: Buffer.from_utf8 hrp))
          else Throw hrpTooLong
      end.
Proof.
  intros E. unfold signTxInitialSetupPackage. rewrite E. cbn [bind].
  unfold Buffer.writeUInt32BE, Buffer.writeUInt16BE.
  rewrite !writeUIntBE_alloc_fits.
  change (8 * Z.of_nat 4) with 32. change (8 * Z.of_nat 2) with 16.
  destruct (fits 32 (stx_txByteCount input)); cbn [negb bind]; [|reflexivity].
  destruct (fits 16 (stx_numberOfInstructions input)); cbn [negb bind];
    [|reflexivity].
  destruct (stx_nonNativeTokenRriHRP input) as [hrp|].
  - destruct (Nat.leb_spec (length hrp) 255).
    + replace (255 <? Z.of_nat (length hrp)) with false
        by (symmetry; apply Z.ltb_ge; lia).
      rewrite writeUInt8_length.
      replace (length hrp <=? 255)%nat with true
        by (symmetry; apply Nat.leb_le; lia).
      cbn [bind]. unfold Buffer.concat. cbn [List.concat app].
      now rewrite !app_nil_r.
    + replace (255 <? Z.of_nat (length hrp)) with true
        by (symmetry; apply Z.ltb_lt; lia).
      reflexivity.
  - change (255 <? 0) with false. cbv iota.
    change (Buffer.writeUInt8 (Buffer.alloc 1) 0 0) with (@Ok Buffer.t [0]).
    cbn [bind]. unfold Buffer.concat, Buffer.alloc. cbn [List.concat app repeat].
    reflexivity.
Qed.

Lemma signTxInitialSetupPackage_checks_witness :
  exists pathData,
    hdPathToBuffer (radixPath 0 0 0) = Ok pathData
    /\ signTxInitialSetupPackage
         {| stx_path := radixPath 0 0 0; stx_txByteCount := 2 ^ 32;
            stx_nonNativeTokenRriHRP := Some (repeat 0x61 256);
            stx_numberOfInstructions := 2 |}
       = Throw RangeError.
Proof.
  destruct (hdPathToBuffer (radixPath 0 0 0)) as [pd|] eqn:E;
    [|discriminate E].
  exists pd. split; [reflexivity|].
  exact (signTxInitialSetupPackage_checks
           {| stx_path := radixPath 0 0 0; stx_txByteCount := 2 ^ 32;
              stx_nonNativeTokenRriHRP := Some (repeat 0x61 256);
              stx_numberOfInstructions := 2 |} pd E).
Defined.

Lemma forEach_out_of_range comps : forall i data,
  forallb (fun c => fits 32 (index c)) comps = false ->
  hdPathComponentsToBuffer_forEach comps i data = Throw RangeError.
Proof.
  induction comps as [|c comps IH]; intros i data H; [discriminate|].
  cbn [forallb] in H. cbn [hdPathComponentsToBuffer_forEach].
  unfold Buffer.writeUInt32BE, Buffer.writeUIntBE.
  change (2 ^ (8 * Z.of_nat 4)) with (2 ^ 32).
  change ((0 <=? index c) && (index c <? 2 ^ 32)) with (fits 32 (index c)).
  destruct (fits 32 (index c)); [|reflexivity].
  destruct (i * 4 + 4 <=? length data)%nat; [|reflexivity].
  cbn [bind]. apply IH. exact H.
Qed.

Lemma forallb_fits l :
  forallb (fun c => fits 32 (index c)) l = true ->
  Forall (fun c => 0 <= index c < 2 ^ 32) l.
Proof.
  intros H. apply Forall_forall. intros c Hc.
  rewrite forallb_forall in H. specialize (H c Hc). unfold fits in H.
  apply andb_true_iff in H as [A B].
  apply Z.leb_le in A. apply Z.ltb_lt in B. lia.
Qed.

(** X6: the path encoder, case by case. A coin type other than 536
    hardened gives the coin-type error, whatever the components; otherwise
    a component whose index does not fit 32 bits, or more than 255
    components, give a RangeError; otherwise the result is the number of
    components in one octet followed by the four big-endian octets of each
    index. *)
Theorem hdPathToBuffer_cases p :
  hdPathToBuffer p
  = if radixCoinTypeb p then
      if encodable p
      then Ok (Z.of_nat (length (pathComponents p))
                 :: flat_map (fun c => Buffer.be_bytes 4 (index c))
                      (pathComponents p))
      else Throw RangeError
    else Throw coinTypeError.
Proof.
  unfold radixCoinTypeb, encodable.
  destruct ((value (coinType p) =? RADIX_COIN_TYPE) && isHardened (coinType p))
    eqn:C.
  - apply andb_true_iff in C as [Cv Ch].
    unfold hdPathToBuffer, hdPathComponentsToBuffer.
    rewrite Cv, Ch. cbn [negb orb].
    destruct (forallb (fun c => fits 32 (index c)) (pathComponents p)) eqn:F.
    + pose proof (forEach_spec (pathComponents p) 0 [] eq_refl
                    (forallb_fits _ F)) as E.
      cbn [app] in E. rewrite E. cbn [bind andb].
      rewrite writeUInt8_length.
      destruct (length (pathComponents p) <=? 255)%nat; [|reflexivity].
      cbn [bind]. unfold Buffer.concat. cbn [List.concat app].
      now rewrite app_nil_r.
    + rewrite forEach_out_of_range by exact F. reflexivity.
  - apply hdPathToBuffer_rejects. apply andb_false_iff in C as [C|C].
    + left. now apply Z.eqb_neq.
    + now right.
Qed.

End APDUMoreFacts.

(** ** Further properties of the Tokens substate *)

Module TokensMoreFacts.
Import Tokens APDUSpec BufferFacts TokensFacts.

Section WithReader.

Variable readFailure : nat -> BufferReaderT -> result Buffer.t * BufferReaderT.

(** X7: an amount below 2^256 is written as 32 octets, and reading them
    back, whatever follows them, gives the amount and leaves the reader
    just behind them. *)
Theorem amount_written_reads_back u rest :
  0 <= u < 2 ^ 256 ->
  length (amountToBuffer u) = 32%nat
  /\ Forall ByteVal (amountToBuffer u)
  /\ uint256FromReadBuffer readFailure (amountToBuffer u ++ rest)
     = (Ok u, rest).
Proof.
  intros R. rewrite amountToBuffer_be.
  assert (V : be_value (Buffer.be_bytes 32 u) = u).
  { apply be_value_be_bytes. change (8 * Z.of_nat 32) with 256. exact R. }
  assert (L : length (Buffer.be_bytes 32 u) = 32%nat) by apply be_bytes_length.
  assert (B : Forall ByteVal (Buffer.be_bytes 32 u)) by apply be_bytes_bytes.
  remember (Buffer.be_bytes 32 u) as b eqn:Hb. clear Hb.
  split; [exact L|split; [exact B|]].
  destruct (firstn_skipn_app b rest) as [F S]. rewrite L in F, S.
  unfold uint256FromReadBuffer, uint256ByteCount.
  rewrite readNextBuffer_enough by (rewrite length_app; lia).
  rewrite F, S. cbn [result_map].
  now rewrite UInt256_new_hex, V by assumption.
Qed.

Section WithREAddress.

Variable REAddressT : Type.
Variable REAddress_toBuffer : REAddressT -> Buffer.t.
Variable REAddress_fromBufferReader :
  BufferReaderT -> result REAddressT * BufferReaderT.
Variable TOKENS : Z.


End WithREAddress.

End WithReader.

Lemma amount_written_reads_back_witness :
  0 <= 1000 < 2 ^ 256
  /\ uint256FromReadBuffer sampleReadFailure (amountToBuffer 1000 ++ [0x07])
     = (Ok 1000, [0x07]).
Proof.
  assert (R : 0 <= 1000 < 2 ^ 256) by (split; [lia|reflexivity]).
  split; [exact R|].
  exact (proj2 (proj2 (amount_written_reads_back sampleReadFailure 1000
                         [0x07] R))).
Defined.


End TokensMoreFacts.

(** ** Further properties of [transactionStatus] *)

Module TransactionStatusStreamFacts.
Import Pipeline PipelineSpec TransactionStatusStream.

Section WithEquals.

Variable equals : TransactionIdentifierT -> TransactionIdentifierT -> bool.

(** An identifier equals itself. *)
Hypothesis equals_refl : forall x, equals x x = true.

Lemma transactionStatus_from_statuses answers : forall prev txID,
  statuses (transactionStatus_from equals prev txID answers)
  = removeRepeats (option_map status prev) (answeredBeforeFailure answers).
Proof.
  induction answers as [|[cur|m] rest IH]; intros prev txID;
    [reflexivity| |reflexivity].
  cbn [transactionStatus_from answeredBeforeFailure removeRepeats].
  rewrite equals_refl.
  destruct prev as [prev|]; cbn [option_map].
  - destruct (TransactionStatus.eqb (status prev) (status cur)).
    + apply IH.
    + cbn [app statuses flat_map]. f_equal. apply (IH (Some cur)).
  - cbn [app statuses flat_map]. f_equal. apply (IH (Some cur)).
Qed.

(** X9: the [filter] of [transactionStatus] compares the identifier of
    each status with itself, so it lets every status through: the statuses
    delivered are all the answers received before the first failed call,
    consecutive ones of equal status removed, whether or not they carry
    the identifier that was asked for. *)
Theorem transactionStatus_filter_keeps_everything txID answers :
  statuses (transactionStatus equals txID answers)
  = removeRepeats None (answeredBeforeFailure answers).
Proof. apply (transactionStatus_from_statuses answers None). Qed.

End WithEquals.

Lemma transactionStatus_filter_keeps_everything_witness :
  statuses (transactionStatus String.eqb "tx1"%string
              [inl {| txID := "tx2"%string;
                      status := TransactionStatus.CONFIRMED |}])
  = [{| txID := "tx2"%string; status := TransactionStatus.CONFIRMED |}].
Proof.
  exact (transactionStatus_filter_keeps_everything String.eqb String.eqb_refl
           "tx1"%string
           [inl {| txID := "tx2"%string;
                   status := TransactionStatus.CONFIRMED |}]).
Defined.

End TransactionStatusStreamFacts.

(** ** Further properties of the pipeline *)

Module PipelineMoreFacts.
Import TransactionTrackingEventType Pipeline PipelineSpec PipelineMoreSpec
  PipelineFacts.

(** *** Runs that have come to rest *)

Lemma noLateConfirm_cons uc i post :
  noLateConfirm uc (i :: post) ->
  (isUserConfirm i = true -> uc = skip) /\ noLateConfirm uc post.
Proof.
  unfold noLateConfirm, confirmCalls. cbn [filter].
  intros [N|N]; [auto|].
  destruct (isUserConfirm i); [discriminate N|].
  split; [discriminate|now right].
Qed.

Lemma Quiet_run uc post : forall used s,
  Quiet uc used s -> noLateConfirm uc post -> snd (runFrom uc s post) = [].
Proof.
  induction post as [|i post IH]; intros used s Q N; [reflexivity|].
  rewrite runFrom_cons. apply noLateConfirm_cons in N as [Hi N].
  destruct (Quiet_step uc used s i Q) as [O Q']; [auto|].
  rewrite O. cbn [app]. now apply (IH (used || isUserConfirm i)).
Qed.

Lemma run_then_quiet uc pre post s os used :
  runFrom uc initial pre = (s, os) ->
  Quiet uc used s ->
  noLateConfirm uc post ->
  __makeTransactionFromIntent uc (pre ++ post) = os.
Proof.
  intros E Q N. unfold __makeTransactionFromIntent.
  rewrite runFrom_app, E. pose proof (Quiet_run uc post used s Q N) as R.
  destruct (runFrom uc s post) as [s2 o2]. cbn [snd] in *. subst o2.
  apply app_nil_r.
Qed.

Lemma run_then_dead uc pre post s os :
  runFrom uc initial pre = (s, os) ->
  Dead s ->
  __makeTransactionFromIntent uc (pre ++ post) = os.
Proof.
  intros E D. unfold __makeTransactionFromIntent.
  rewrite runFrom_app, E. pose proof (Dead_run uc post s D) as R.
  destruct (runFrom uc s post) as [s2 o2]. cbn [snd] in *. subst o2.
  apply app_nil_r.
Qed.

Lemma runFrom_two uc pre post s os s' os' :
  runFrom uc initial pre = (s, os) ->
  runFrom uc s post = (s', os') ->
  runFrom uc initial (pre ++ post) = (s', os ++ os').
Proof. intros E E'. now rewrite runFrom_app, E, E'. Qed.

Lemma untilPending_exact uc intent a b acc sig f p :
  signable intent ->
  runFrom uc initial (untilPending uc intent a b acc sig f p)
  = (pendingState uc b p, outputsUntilPending uc intent a b acc sig f p).
Proof.
  intros Hs. unfold untilPending.
  rewrite runFrom_app, untilSigning_run.
  cbn [runFrom step signingState upstream signing confirmedUpstream builtSlot
       signWaiting chainAlive].
  rewrite (signUnsignedTx_accepts b intent Hs).
  destruct uc; reflexivity.
Qed.

Lemma untilFinalizing_exact uc intent a b acc sig :
  signable intent ->
  runFrom uc initial
    (untilSigning uc intent a b
       ++ [SignInputs intent acc; SignResponse 0 (inl sig)])
  = (finalizingState uc b,
     outputsUntilSigning uc intent a b ++ outputsOfSigning intent b acc sig).
Proof.
  intros Hs.
  rewrite runFrom_app, untilSigning_run.
  cbn [runFrom step signingState upstream signing confirmedUpstream builtSlot
       signWaiting chainAlive].
  rewrite (signUnsignedTx_accepts b intent Hs).
  destruct uc; reflexivity.
Qed.

(** X10: the whole of a successful run. For an intent the signing step
    accepts, the answers of the node and of the account in their order,
    one poll and the status CONFIRMED give exactly: the events INITIATED
    to SUBMITTED with the calls between them, the status call for the
    pending transaction, the update, COMPLETED, and on the completion
    output the identifier carried by the status, then the end of the
    stream. Whatever arrives afterwards, short of a further confirm() in
    manual mode, adds nothing. *)
Theorem confirmed_status_completes uc intent a b acc sig f p id post :
  signable intent ->
  noLateConfirm uc post ->
  let st := {| txID := id; status := TransactionStatus.CONFIRMED |} in
  __makeTransactionFromIntent uc
    ((untilPending uc intent a b acc sig f p
        ++ [Tick; StatusResponse (inl st)]) ++ post)
  = outputsUntilPending uc intent a b acc sig f p
      ++ [CallTransactionStatus (pending_txID p);
          Track (TransactionStateSuccess UPDATE_OF_STATUS_OF_PENDING_TX
                   (OfStatus st));
          Track (TransactionStateSuccess COMPLETED (OfStatus st));
          CompletionNext id;
          CompletionComplete].
Proof.
  intros Hs N st.
  apply (run_then_quiet uc _ post
           (fst (runFrom uc (pendingState uc b p)
                   [Tick; StatusResponse (inl st)])) _ true); [| |exact N].
  - eapply runFrom_two; [now apply untilPending_exact|].
    destruct uc; reflexivity.
  - destruct uc; unfold Quiet, noConfirm; cbn; repeat split; auto.
Qed.

Lemma confirmed_status_completes_witness :
  completionOutputs
    (__makeTransactionFromIntent manual
       ((untilPending manual xrdIntent "alice"%string builtTx alice
           "sig"%string finalizedTx pendingTx
         ++ [Tick; StatusResponse (inl (statusOf TransactionStatus.CONFIRMED))])
        ++ [Tick; SignInputs xrdIntent alice]))
  = [CompletionNext "tx1"%string; CompletionComplete].
Proof.
  assert (S : signable xrdIntent) by (unfold signable; cbn; lia).
  assert (N : noLateConfirm manual [Tick; SignInputs xrdIntent alice])
    by (right; reflexivity).
  pose proof (confirmed_status_completes manual xrdIntent "alice"%string
                builtTx alice "sig"%string finalizedTx pendingTx "tx1"%string
                [Tick; SignInputs xrdIntent alice] S N) as H.
  cbv zeta in H. unfold statusOf. rewrite H. reflexivity.
Defined.





(** X13: a refusal of the account to sign ends the pipeline for good.
    The error is tracked in the phase FINALIZED and fails the completion
    output; whatever arrives afterwards, a further confirm() included,
    produces nothing: no event, no call. *)
Theorem signing_failure_is_final uc intent a b acc e post :
  signable intent ->
  __makeTransactionFromIntent uc
    ((untilSigning uc intent a b
        ++ [SignInputs intent acc; SignResponse 0 (inr e)]) ++ post)
  = outputsUntilSigning uc intent a b
      ++ [CallSign (transaction b) (hrpOf intent);
          Track (TransactionStateError FINALIZED (Thrown e));
          CompletionError (Thrown e)].
Proof.
  intros Hs.
  apply (run_then_dead uc _ post
           (fst (runFrom uc (signingState uc b)
                   [SignInputs intent acc; SignResponse 0 (inr e)]))).
  - eapply runFrom_two; [apply untilSigning_run|].
    cbn [runFrom step signingState upstream signing confirmedUpstream builtSlot
         signWaiting chainAlive].
    rewrite (signUnsignedTx_accepts b intent Hs).
    destruct uc; reflexivity.
  - cbn [runFrom step signingState upstream signing confirmedUpstream builtSlot
         signWaiting chainAlive].
    rewrite (signUnsignedTx_accepts b intent Hs).
    destruct uc; unfold Dead; cbn; repeat split; auto.
Qed.

Lemma signing_failure_is_final_witness :
  __makeTransactionFromIntent manual
    ((untilSigning manual xrdIntent "alice"%string builtTx
        ++ [SignInputs xrdIntent alice;
            SignResponse 0 (inr (Error "device refused"))])
     ++ [UserConfirm; SignInputs xrdIntent alice])
  = outputsUntilSigning manual xrdIntent "alice"%string builtTx
      ++ [CallSign "blob"%string None;
          Track (TransactionStateError FINALIZED
                   (Thrown (Error "device refused")));
          CompletionError (Thrown (Error "device refused"))].
Proof.
  assert (S : signable xrdIntent) by (unfold signable; cbn; lia).
  exact (signing_failure_is_final manual xrdIntent "alice"%string builtTx alice
           (Error "device refused") [UserConfirm; SignInputs xrdIntent alice] S).
Defined.

(** *** Before the confirmation *)

Ltac crunch :=
  repeat (cbn;
          match goal with
          | |- context [nth_error [] ?k] => destruct k
          | |- context [match ?x with _ => _ end] => is_var x; destruct x
          end);
  cbn.

Lemma Unconfirmed_step s i :
  Unconfirmed s ->
  isUserConfirm i = false ->
  forallb beforeConfirmation (snd (step manual i s)) = true
  /\ Unconfirmed (fst (step manual i s)).
Proof.
  destruct s as [[ip bf bs cs ho] [ca sw sf] [fa fi sa si] [ts ps pa st ls] c].
  unfold Unconfirmed. cbn. intros (A & B & C & D & E & F & G) Hi. subst.
  destruct c, i; try discriminate Hi; crunch; repeat split; reflexivity.
Qed.

Lemma Unconfirmed_run inputs : forall s,
  Unconfirmed s ->
  confirmCalls inputs = 0%nat ->
  forallb beforeConfirmation (snd (runFrom manual s inputs)) = true.
Proof.
  induction inputs as [|i inputs IH]; intros s U N; [reflexivity|].
  rewrite runFrom_cons, forallb_app.
  unfold confirmCalls in N. cbn [filter] in N.
  destruct (isUserConfirm i) eqn:Hi; [discriminate N|].
  destruct (Unconfirmed_step s i U Hi) as [O U'].
  rewrite O. cbn [andb]. now apply IH.
Qed.

(** X14: under the manual scheme nothing is signed before the caller
    confirms. As long as confirm() has not been invoked, whatever the node
    and the account answer, the pipeline tracks nothing beyond
    ASKED_FOR_CONFIRMATION (or the failure of the build), and calls
    nothing but buildTransaction. *)
Theorem manual_waits_for_confirm inputs :
  confirmCalls inputs = 0%nat ->
  forallb beforeConfirmation (__makeTransactionFromIntent manual inputs) = true.
Proof.
  intros N. apply Unconfirmed_run; [|exact N].
  unfold Unconfirmed. cbn. repeat split; reflexivity.
Qed.

Lemma manual_waits_for_confirm_witness :
  filter isCall
    (__makeTransactionFromIntent manual
       [IntentEmitted xrdIntent "alice"%string; BuildResponse (inl builtTx);
        SignInputs xrdIntent alice; Tick])
  = [CallBuildTransaction xrdIntent "alice"%string]
  /\ forallb beforeConfirmation
       (__makeTransactionFromIntent manual
          [IntentEmitted xrdIntent "alice"%string; BuildResponse (inl builtTx);
           SignInputs xrdIntent alice; Tick]) = true.
Proof.
  split; [reflexivity|].
  exact (manual_waits_for_confirm
           [IntentEmitted xrdIntent "alice"%string; BuildResponse (inl builtTx);
            SignInputs xrdIntent alice; Tick] eq_refl).
Defined.

(** *** The completion output *)

Lemma completionOutputs_app a b :
  completionOutputs (a ++ b) = completionOutputs a ++ completionOutputs b.
Proof. apply filter_app. Qed.

Lemma settle_step uc s i :
  (completion (fst (step uc i s)) = completion s
   /\ completionOutputs (snd (step uc i s)) = [])
  \/ (completion s = Open
      /\ completion (fst (step uc i s)) = Failed
      /\ exists e, completionOutputs (snd (step uc i s)) = [CompletionError e])
  \/ (completion s = Open
      /\ completion (fst (step uc i s)) = Completed
      /\ exists st,
          status st = TransactionStatus.CONFIRMED
          /\ In (Track (TransactionStateSuccess COMPLETED (OfStatus st)))
               (snd (step uc i s))
          /\ completionOutputs (snd (step uc i s))
             = [CompletionNext (txID st); CompletionComplete]).
Proof.
  destruct s as [[ip bf bs cs ho] [ca sw sf] [fa fi sa si] [ts ps pa st ls] c].
  destruct i;
    cbv -[signUnsignedTx_mergeMap nth_error firstn skipn String.append In
          completionOutputs status txID];
    repeat match goal with
           | |- context [signUnsignedTx_mergeMap ?b ?i] =>
               destruct (signUnsignedTx_mergeMap b i) as [?|[? ?]]
           | |- context [nth_error ?l ?k] => destruct (nth_error l k)
           | |- context [match status ?x with _ => _ end] =>
               destruct (status x) eqn:?
           | |- context [match ?x with _ => _ end] => is_var x; destruct x
           end;
    first [ left; split; reflexivity
          | right; left; repeat split; eexists; reflexivity
          | right; right; repeat split;
            match goal with
            | H : status ?x = TransactionStatus.CONFIRMED |- _ =>
                exists x; split; [exact H|split; [cbn; tauto|reflexivity]]
            end ].
Qed.

Lemma settled_run uc inputs : forall s os0,
  settled (completion s) os0 ->
  settled (completion (fst (runFrom uc s inputs)))
    (os0 ++ snd (runFrom uc s inputs)).
Proof.
  induction inputs as [|i inputs IH]; intros s os0 H.
  - cbn. now rewrite app_nil_r.
  - rewrite runFrom_cons. cbn [runFrom].
    pose proof (settle_step uc s i) as S.
    destruct (step uc i s) as [s1 o1]. cbn [fst snd] in *.
    specialize (IH s1 (os0 ++ o1)).
    destruct (runFrom uc s1 inputs) as [s2 o2]. cbn [fst snd] in *.
    rewrite app_assoc. apply IH.
    destruct S as [[E O]|[(E & E' & e & O)|(E & E' & st0 & C & I & O)]].
    + rewrite E. destruct (completion s); cbn [settled] in *.
      * now rewrite completionOutputs_app, H, O.
      * destruct H as [e H]. exists e.
        now rewrite completionOutputs_app, H, O.
      * destruct H as (st0 & C & I & H). exists st0.
        split; [exact C|]. split; [apply in_or_app; now left|].
        now rewrite completionOutputs_app, H, O.
    + rewrite E in H. rewrite E'. cbn [settled] in *. exists e.
      now rewrite completionOutputs_app, H, O.
    + rewrite E in H. rewrite E'. cbn [settled] in *. exists st0.
      split; [exact C|]. split; [apply in_or_app; now right|].
      now rewrite completionOutputs_app, H, O.
Qed.

(** X15: the completion output settles at most once, in every run. It
    sees nothing, or one error and nothing else, or one transaction
    identifier followed by the end of the stream; and the identifier is
    the one of a status CONFIRMED that was tracked as COMPLETED. It never
    sees both an identifier and an error. *)
Theorem completion_settles_once uc inputs :
  let os := __makeTransactionFromIntent uc inputs in
  completionOutputs os = []
  \/ (exists e, completionOutputs os = [CompletionError e])
  \/ (exists st,
         status st = TransactionStatus.CONFIRMED
         /\ In (Track (TransactionStateSuccess COMPLETED (OfStatus st))) os
         /\ completionOutputs os
            = [CompletionNext (txID st); CompletionComplete]).
Proof.
  intros os. subst os. unfold __makeTransactionFromIntent.
  pose proof (settled_run uc inputs initial [] eq_refl) as H.
  cbn [app] in H. destruct (completion (fst (runFrom uc initial inputs)));
    cbn [settled] in H; auto.
Qed.

(** *** Polling *)

Lemma lastSubmitted_app sub a b :
  lastSubmitted sub (a ++ b) = lastSubmitted (lastSubmitted sub a) b.
Proof. apply fold_left_app. Qed.

Lemma pollsSubmitted_cons sub o rest :
  pollsSubmitted sub (o :: rest)
  <-> pollsSubmitted sub [o] /\ pollsSubmitted (lastSubmitted sub [o]) rest.
Proof.
  destruct o; cbn; tauto.
Qed.

Lemma pollsSubmitted_app a : forall sub b,
  pollsSubmitted sub (a ++ b)
  <-> pollsSubmitted sub a /\ pollsSubmitted (lastSubmitted sub a) b.
Proof.
  induction a as [|o a IH]; intros sub b; [cbn; tauto|].
  cbn [app]. rewrite (pollsSubmitted_cons sub o (a ++ b)).
  rewrite (pollsSubmitted_cons sub o a), IH.
  change (o :: a) with ([o] ++ a). rewrite lastSubmitted_app. tauto.
Qed.

Lemma polls_step uc s i sub :
  PollsFor sub s ->
  pollsSubmitted sub (snd (step uc i s))
  /\ PollsFor (lastSubmitted sub (snd (step uc i s))) (fst (step uc i s)).
Proof.
  destruct s as [[ip bf bs cs ho] [ca sw sf] [fa fi sa si] [ts ps pa st ls] c].
  unfold PollsFor. cbn. intros H.
  destruct i;
    cbv -[signUnsignedTx_mergeMap nth_error firstn skipn String.append
          pollsSubmitted lastSubmitted option_map pending_txID status txID];
    repeat match goal with
           | |- context [signUnsignedTx_mergeMap ?b ?i] =>
               destruct (signUnsignedTx_mergeMap b i) as [?|[? ?]]
           | |- context [nth_error ?l ?k] => destruct (nth_error l k)
           | |- context [match status ?x with _ => _ end] =>
               destruct (status x) eqn:?
           | |- context [match ?x with _ => _ end] => is_var x; destruct x
           end;
    cbn; try (specialize (H eq_refl); cbn in H; subst sub);
    repeat split; auto; try discriminate.
Qed.

Lemma polls_run uc inputs : forall s sub,
  PollsFor sub s -> pollsSubmitted sub (snd (runFrom uc s inputs)).
Proof.
  induction inputs as [|i inputs IH]; intros s sub H; [exact I|].
  rewrite runFrom_cons. apply pollsSubmitted_app.
  destruct (polls_step uc s i sub H) as [P H']. split; [exact P|].
  now apply IH.
Qed.

Lemma pollsSubmitted_call before : forall sub id after,
  pollsSubmitted sub (before ++ CallTransactionStatus id :: after) ->
  lastSubmitted sub before = Some id.
Proof.
  intros sub id after H. apply pollsSubmitted_app in H as [_ H].
  cbn in H. now destruct H.
Qed.

(** X16: the node is asked for the status of a transaction only after
    SUBMITTED has been tracked, and always for the transaction whose
    submission was tracked last; this holds in every run. *)
Theorem status_calls_follow_submission uc inputs before id after :
  __makeTransactionFromIntent uc inputs
  = before ++ CallTransactionStatus id :: after ->
  lastSubmitted None before = Some id.
Proof.
  intros E. apply (pollsSubmitted_call before None id after).
  rewrite <- E. apply polls_run. intros _. reflexivity.
Qed.

Lemma status_calls_follow_submission_witness :
  lastSubmitted None
    (outputsUntilPending skip xrdIntent "alice"%string builtTx alice
       "sig"%string finalizedTx pendingTx)
  = Some "tx1"%string.
Proof.
  exact (status_calls_follow_submission skip
           (untilPending skip xrdIntent "alice"%string builtTx alice
              "sig"%string finalizedTx pendingTx ++ [Tick; Tick])
           (outputsUntilPending skip xrdIntent "alice"%string builtTx alice
              "sig"%string finalizedTx pendingTx)
           "tx1"%string [CallTransactionStatus "tx1"%string] eq_refl).
Defined.

(** *** The check of the signing step *)

Lemma nonXRD_listed i n :
  In n (nonXRDHRPsOfRRIsInTx i) <-> transfers i n /\ n <> "xrd"%string.
Proof.
  split.
  - unfold nonXRDHRPsOfRRIsInTx. intros H.
    apply in_map_iff in H as (t & <- & H).
    apply filter_In in H as [H G].
    apply in_flat_map in H as (a & Ha & Ht).
    apply filter_In in Ha as [Ha _].
    destruct a as [t'| |]; cbn in Ht; try contradiction.
    destruct Ht as [->|[]]. split; [now exists t|].
    apply negb_true_iff in G. now apply String.eqb_neq.
  - intros [(t & Ht & <-) Hn]. now apply transfer_name_listed.
Qed.

(** X17: what the signing step decides, for every intent. It refuses
    with the error for several non-native resources exactly when the
    transfers of the intent name two different resources other than xrd;
    otherwise account.sign is given the blob of the built transaction
    and, as prefix, the one resource other than xrd that the transfers
    name, or none when every transfer is of xrd. *)
Theorem signUnsignedTx_decides b i :
  match signUnsignedTx_mergeMap b i with
  | inl e => e = MultipleNonNativeRRIs /\ multipleNonNativeRRIs i
  | inr (tx, Some n) =>
      tx = transaction b
      /\ ~ multipleNonNativeRRIs i
      /\ n <> "xrd"%string
      /\ transfers i n
      /\ forall n', transfers i n' -> n' = "xrd"%string \/ n' = n
  | inr (tx, None) =>
      tx = transaction b
      /\ ~ multipleNonNativeRRIs i
      /\ forall n', transfers i n' -> n' = "xrd"%string
  end.
Proof.
  unfold signUnsignedTx_mergeMap, uniquenonXRDHRPsOfRRIsInTx.
  destruct (newSet_spec (nonXRDHRPsOfRRIsInTx i)) as [ND IN].
  assert (M : multipleNonNativeRRIs i ->
              exists x y, x <> y /\ In x (newSet (nonXRDHRPsOfRRIsInTx i))
                          /\ In y (newSet (nonXRDHRPsOfRRIsInTx i))).
  { intros (t1 & t2 & I1 & I2 & N1 & N2 & D).
    exists (name (rri t1)), (name (rri t2)). split; [exact D|].
    split; apply IN, nonXRD_listed; (split; [eexists; eauto|assumption]). }
  destruct (newSet (nonXRDHRPsOfRRIsInTx i)) as [|x [|y l]]; cbn.
  - split; [reflexivity|]. split.
    + intros Hm. destruct (M Hm) as (? & ? & _ & [] & _).
    + intros n' T. destruct (string_dec n' "xrd") as [|Hn]; [assumption|].
      destruct (proj2 (IN n') (proj2 (nonXRD_listed i n') (conj T Hn))).
  - assert (X : transfers i x /\ x <> "xrd"%string).
    { apply nonXRD_listed, IN. now left. }
    destruct X as [T X]. repeat split; auto.
    + intros Hm. destruct (M Hm) as (u & v & D & [<-|[]] & [<-|[]]).
      now apply D.
    + intros n' T'. destruct (string_dec n' "xrd") as [|Hn]; [now left|].
      right. destruct (proj2 (IN n') (proj2 (nonXRD_listed i n') (conj T' Hn)))
        as [<-|[]]. reflexivity.
  - split; [reflexivity|].
    assert (X : transfers i x /\ x <> "xrd"%string).
    { apply nonXRD_listed, IN. now left. }
    assert (Y : transfers i y /\ y <> "xrd"%string).
    { apply nonXRD_listed, IN. right. now left. }
    destruct X as [(t1 & I1 & <-) X], Y as [(t2 & I2 & <-) Y].
    exists t1, t2. repeat split; auto.
    intros E. inversion ND as [|? ? Hx _]; subst. apply Hx. rewrite E.
    now left.
Qed.

End PipelineMoreFacts.
